(** * Verification of the signal-conditioning primitives of q/sfx.hpp

    The header [q/sfx.hpp] defines six per-sample processors: the antialias
    downsampler [fast_downsample], the self-modulating smoother
    [dynamic_smoother], the dynamic one-pole low-pass [dynamic_lowpass],
    the zero-crossing detector [zero_cross], the onset detector
    [onset_detector] and the peak detector [peak].

    Every processor is a C++ struct with feedback registers and a mutating
    [operator()].  Each struct becomes a record, each member function a
    computation in a small state monad over that record, written statement
    by statement in the order of the source.

    The sample arithmetic is a type class [Sample]: [fast_downsample] is a
    template over its sample type, and the other processors are written on
    [float].  Three instances interpret the same definitions:
    - [binary32]: IEEE 754 single precision, from the parametric
      specification [SpecFloat] at precision 24 and maximal exponent 128,
      every operation rounded to nearest even; this is the arithmetic
      the compiled code runs on;
    - [exact]: the real numbers, the arithmetic the algorithms are
      designed in;
    - [uint16]: the unsigned 16-bit integers, the instance of
      [fast_downsample] that the header names in its comment. *)

From Stdlib Require Import ZArith Bool List Lia Reals Lra Psatz.
From Stdlib Require Import Floats.SpecFloat.
Import ListNotations.

Set Implicit Arguments.

(** ** A state monad for member functions *)

Definition State (S A : Type) : Type := S -> A * S.

Definition ret {S A : Type} (a : A) : State S A := fun s => (a, s).

Definition bind {S A B : Type} (m : State S A) (k : A -> State S B)
  : State S B :=
  fun s => let (a, s') := m s in k a s'.

Definition get {S : Type} : State S S := fun s => (s, s).

Definition put {S : Type} (s : S) : State S unit := fun _ => (tt, s).

Definition modify {S : Type} (f : S -> S) : State S unit :=
  fun s => (tt, f s).

(** [zoom proj upd m] runs a member object's function [m] on the member
    selected by [proj] and stores the member back with [upd]. *)
Definition zoom {S U A : Type} (proj : S -> U) (upd : U -> S -> S)
  (m : State U A) : State S A :=
  fun s => let (a, u') := m (proj s) in (a, upd u' s).

(** Feeding a stream of inputs to a per-sample operation, collecting the
    outputs in order. *)
Fixpoint run {S I O : Type} (step : I -> State S O) (inputs : list I)
  : State S (list O) :=
  match inputs with
  | [] => ret []
  | i :: rest =>
      bind (step i) (fun o =>
      bind (run step rest) (fun os => ret (o :: os)))
  end.

Declare Scope state_scope.
Delimit Scope state_scope with state.
Notation "x <- m ;; k" := (bind m (fun x => k))
  (at level 61, m at next level, right associativity) : state_scope.
Notation "m ;; k" := (bind m (fun _ => k))
  (at level 61, right associativity) : state_scope.

(** ** The sample arithmetic *)

Class Sample (T : Type) : Type := {
  of_int : Z -> T;          (* conversion of an integer value to [T] *)
  sadd : T -> T -> T;
  ssub : T -> T -> T;
  smul : T -> T -> T;
  sdiv : T -> T -> T;
  sabs : T -> T;            (* std::abs *)
  sltb : T -> T -> bool     (* operator< *)
}.

Declare Scope sample_scope.
Delimit Scope sample_scope with S.
Notation "a + b" := (sadd a b) : sample_scope.
Notation "a - b" := (ssub a b) : sample_scope.
Notation "a * b" := (smul a b) : sample_scope.
Notation "a / b" := (sdiv a b) : sample_scope.
Notation "a <? b" := (sltb a b) : sample_scope.

(** The literals [0.0f], [1.0f], [2.0f], [4.0f] and the integer literals
    [0], [2], [4] converted to the sample type. *)
Definition zero {T} {SampleT : Sample T} : T := of_int 0.
Definition one {T} {SampleT : Sample T} : T := of_int 1.
Definition two {T} {SampleT : Sample T} : T := of_int 2.
Definition four {T} {SampleT : Sample T} : T := of_int 4.

(** The literal [0.5]; one half is a power of two, so the quotient is
    exact in every instance that has it. *)
Definition half {T} {SampleT : Sample T} : T := (one / two)%S.

(** [std::min(a, b)] is [(b < a) ? b : a] and [std::max(a, b)] is
    [(a < b) ? b : a]. *)
Definition std_min {T} {SampleT : Sample T} (a b : T) : T :=
  if (b <? a)%S then b else a.

Definition std_max {T} {SampleT : Sample T} (a b : T) : T :=
  if (a <? b)%S then b else a.

(** Conversion of a [bool] to the sample type. *)
Definition of_bool {T} {SampleT : Sample T} (b : bool) : T :=
  if b then one else zero.

(** The constant [pi] of q/support.hpp and [std::tan], which the
    configuration of [dynamic_smoother] uses, are parameters of the
    development; the real numbers instantiate them.  (The source
    evaluates them in [double] and stores the results in [float]
    members; [DynamicSmootherSingle] below follows the two formats, with
    the tangent a parameter on [double].) *)
Class Trig (T : Type) : Type := {
  pi : T;
  std_tan : T -> T
}.

(** *** IEEE 754 single precision *)

Module B32.

Definition prec : Z := 24.
Definition emax : Z := 128.

Abbreviation float := spec_float (only parsing).

(** The value [m * 2^e], rounded to nearest even. *)
Definition of_dyadic (m e : Z) : float := binary_normalize prec emax m e false.

Definition is_nan (f : float) : bool :=
  match f with S754_nan => true | _ => false end.

Definition is_finite (f : float) : bool :=
  match f with S754_zero _ | S754_finite _ _ _ => true | _ => false end.

Definition valid (f : float) : bool := valid_binary prec emax f.

Definition eqb (a b : float) : bool := SFeqb a b.
Definition leb (a b : float) : bool := SFleb a b.

(** The integer nearest to [t / 2], respectively [t / 4], ties to the
    even one: what rounding a mantissa [t] of 25, respectively 26, bits
    to 24 bits yields. *)
Definition nearest_even_1 (t : Z) : Z :=
  let q := (t / 2)%Z in
  if Z.odd t then (if Z.even q then q else (q + 1)%Z) else q.

Definition nearest_even_2 (t : Z) : Z :=
  let q := (t / 4)%Z in
  if Z.odd (t / 2)
  then (if Z.odd t then (q + 1)%Z else if Z.even q then q else (q + 1)%Z)
  else q.

(** The values whose half and quarter are computed without any loss: the
    zeros, the infinities and the finite numbers with an exponent of at
    least -147, that is a magnitude of at least [2^-124]. *)
Definition quarters_exactly (c : float) : bool :=
  match c with
  | S754_nan => false
  | S754_finite _ _ e => valid c && (-147 <=? e)%Z
  | _ => true
  end.

End B32.

#[export] Instance binary32 : Sample B32.float := {
  of_int z := B32.of_dyadic z 0;
  sadd := SFadd B32.prec B32.emax;
  ssub := SFsub B32.prec B32.emax;
  smul := SFmul B32.prec B32.emax;
  sdiv := SFdiv B32.prec B32.emax;
  sabs := SFabs;
  sltb := SFltb
}.

(** *** Exact arithmetic *)

Definition Rltb (a b : R) : bool := if Rlt_dec a b then true else false.

#[export] Instance exact : Sample R := {
  of_int := IZR;
  sadd := Rplus;
  ssub := Rminus;
  smul := Rmult;
  sdiv := Rdiv;
  sabs := Rabs;
  sltb := Rltb
}.

#[export] Instance exact_trig : Trig R := {
  pi := PI;
  std_tan := tan
}.

(** *** Unsigned 16-bit integers

    The operands are promoted to [int], where no operation of the
    downsampler overflows, and the result wraps around when it is stored
    in a [std::uint16_t]; wrapping after every operation gives the same
    sums.  The division truncates.  Only the downsampler is instantiated
    on integers. *)

Module U16.

Definition modulus : Z := 65536.
Definition wrap (z : Z) : Z := z mod modulus.

End U16.

#[export] Instance uint16 : Sample Z := {
  of_int z := U16.wrap z;
  sadd a b := U16.wrap (a + b);
  ssub a b := U16.wrap (a - b);
  smul a b := U16.wrap (a * b);
  sdiv a b := U16.wrap (Z.quot a b);
  sabs a := a;
  sltb := Z.ltb
}.

(** ** fast_downsample *)

Module FastDownsample.
Section Def.
Context {T : Type} {SampleT : Sample T}.
Local Open Scope sample_scope.
Local Open Scope state_scope.

Record fast_downsample : Type := { x : T }.

(** [T x = 0.0f;] *)
Definition make : fast_downsample := {| x := zero |}.

Definition set_x (v : T) (d : fast_downsample) : fast_downsample :=
  {| x := v |}.

(** [auto out = x + (s1/2); x = s2/4; return out + x;] *)
Definition operator_call (s1 s2 : T) : State fast_downsample T :=
  d <- get ;;
  let out := x d + (s1 / two) in
  modify (set_x (s2 / four)) ;;
  d' <- get ;;
  ret (out + x d').

(** One call on a pair of consecutive samples, for feeding a stream of
    pairs. *)
Definition operator_call_pair (p : T * T) : State fast_downsample T :=
  operator_call (fst p) (snd p).

End Def.
Arguments fast_downsample T : clear implicits.
End FastDownsample.

(** ** dynamic_smoother *)

Module DynamicSmoother.
Section Def.
Context {T : Type} {SampleT : Sample T}.
Local Open Scope sample_scope.
Local Open Scope state_scope.

Record dynamic_smoother : Type := {
  sense : T;
  wc : T;
  g0 : T;
  low1 : T;
  low2 : T
}.

Definition set_wc (v : T) (d : dynamic_smoother) : dynamic_smoother :=
  {| sense := sense d; wc := v; g0 := g0 d; low1 := low1 d; low2 := low2 d |}.

Definition set_g0 (v : T) (d : dynamic_smoother) : dynamic_smoother :=
  {| sense := sense d; wc := wc d; g0 := v; low1 := low1 d; low2 := low2 d |}.

Definition set_low1 (v : T) (d : dynamic_smoother) : dynamic_smoother :=
  {| sense := sense d; wc := wc d; g0 := g0 d; low1 := v; low2 := low2 d |}.

Definition set_low2 (v : T) (d : dynamic_smoother) : dynamic_smoother :=
  {| sense := sense d; wc := wc d; g0 := g0 d; low1 := low1 d; low2 := v |}.

(** [dynamic_smoother(frequency base, float sensitivity, std::uint32_t sps)]:
    the member initializers [sense(sensitivity * 4.0f)] and
    [wc(double(base) / sps)], the default member initializers of the two
    registers, then the constructor body, which assigns [g0].  Every
    operation is read in the sample arithmetic [T]; the compiled code
    evaluates the quotient, the tangent and [g0] in [double] and narrows
    on the stores, which [DynamicSmootherSingle.make] follows. *)
Definition make {TrigT : Trig T} (base sensitivity : T) (sps : N)
  : dynamic_smoother :=
  let d := {| sense := sensitivity * four;
              wc := base / of_int (Z.of_N sps);
              g0 := zero;
              low1 := zero;
              low2 := zero |} in
  let gc := std_tan (pi * wc d) in
  set_g0 (two * gc / (one + gc)) d.

(** [dynamic_smoother(frequency base, std::uint32_t sps)] delegates with
    sensitivity [0.5]. *)
Definition make_default {TrigT : Trig T} (base : T) (sps : N)
  : dynamic_smoother :=
  make base half sps.

(** The base coefficient that the constructor and [base_frequency]
    derive, as a function of the normalized cutoff [wc]. *)
Definition base_coefficient {TrigT : Trig T} (w : T) : T :=
  let gc := std_tan (pi * w) in
  two * gc / (one + gc).

(** The bandpass estimate and the coefficient [g] that [operator()]
    computes from the registers before it updates them. *)
Definition bandz (d : dynamic_smoother) : T := low1 d - low2 d.

Definition g (d : dynamic_smoother) : T :=
  std_min (g0 d + sense d * sabs (bandz d)) one.

(** [float operator()(float s)] *)
Definition operator_call (s : T) : State dynamic_smoother T :=
  d <- get ;;
  let lowlz := low1 d in
  let low2z := low2 d in
  let bandz := lowlz - low2z in
  let g := std_min (g0 d + sense d * sabs bandz) one in
  modify (set_low1 (lowlz + g * (s - lowlz))) ;;
  d1 <- get ;;
  modify (set_low2 (low2z + g * (low1 d1 - low2z))) ;;
  ret low2z.

(** [void base_frequency(frequency base, std::uint32_t sps)], read in
    the sample arithmetic [T] like the constructor;
    [DynamicSmootherSingle.base_frequency] follows the two formats of
    the compiled code. *)
Definition base_frequency {TrigT : Trig T} (base : T) (sps : N)
  : State dynamic_smoother unit :=
  modify (set_wc (base / of_int (Z.of_N sps))) ;;
  d <- get ;;
  let gc := std_tan (pi * wc d) in
  modify (set_g0 (two * gc / (one + gc))).

End Def.
Arguments dynamic_smoother T : clear implicits.
End DynamicSmoother.

(** ** dynamic_lowpass *)

Module DynamicLowpass.
Section Def.
Context {T : Type} {SampleT : Sample T}.
Local Open Scope sample_scope.
Local Open Scope state_scope.

Record dynamic_lowpass : Type := { _y : T }.

(** [float _y = 0.0f;] *)
Definition make : dynamic_lowpass := {| _y := zero |}.

(** [return _y += a * (s - _y);] *)
Definition operator_call (s a : T) : State dynamic_lowpass T :=
  d <- get ;;
  put {| _y := _y d + a * (s - _y d) |} ;;
  d' <- get ;;
  ret (_y d').

(** [float operator()() const] *)
Definition operator_call_const : State dynamic_lowpass T :=
  d <- get ;;
  ret (_y d).

(** [dynamic_lowpass& operator=(float y_)] *)
Definition operator_assign (y_ : T) : State dynamic_lowpass unit :=
  put {| _y := y_ |}.

End Def.
Arguments dynamic_lowpass T : clear implicits.
End DynamicLowpass.

(** ** The collaborators of q/fx.hpp

    [schmitt_trigger], [one_pole_lowpass] and [peak_envelope_follower]
    are defined in q/fx.hpp, the literal [-36_dB] and the conversion of a
    duration to a frequency in q/literals.hpp.  The detectors below use
    them only through their constructors and their [operator()], so they
    are parameters of the development. *)

Class Schmitt (T : Type) : Type := {
  schmitt_trigger : Type;
  schmitt_trigger_make : T -> schmitt_trigger;
  schmitt_trigger_call : T -> T -> State schmitt_trigger bool
}.

Class Envelope (T : Type) : Type := {
  one_pole_lowpass : Type;
  one_pole_lowpass_make : T -> N -> one_pole_lowpass;
  one_pole_lowpass_call : T -> State one_pole_lowpass T;
  peak_envelope_follower : Type;
  peak_envelope_follower_make : T -> N -> peak_envelope_follower;
  peak_envelope_follower_call : T -> State peak_envelope_follower T;
  frequency_of_duration : T -> T;
  minus_36_dB : T
}.

(** ** zero_cross *)

Module ZeroCross.
Section Def.
Context {T : Type} {SampleT : Sample T} {SchmittT : Schmitt T}.
Local Open Scope sample_scope.
Local Open Scope state_scope.

Record zero_cross : Type := {
  _cmp : schmitt_trigger;
  _state : bool
}.

Definition set_cmp (c : schmitt_trigger) (z : zero_cross) : zero_cross :=
  {| _cmp := c; _state := _state z |}.

(** [zero_cross(float hysteresis) : _cmp(hysteresis)], [bool _state = 0;] *)
Definition make (hysteresis : T) : zero_cross :=
  {| _cmp := schmitt_trigger_make hysteresis; _state := false |}.

(** [return _cmp(s, 0);], the [bool] converted to the [float] result. *)
Definition operator_call (s : T) : State zero_cross T :=
  b <- zoom _cmp set_cmp (schmitt_trigger_call s zero) ;;
  ret (of_bool b).

End Def.
Arguments zero_cross T {_}.
End ZeroCross.

(** ** onset_detector *)

Module OnsetDetector.
Section Def.
Context {T : Type} {SampleT : Sample T} {SchmittT : Schmitt T}
  {EnvelopeT : Envelope T}.
Local Open Scope sample_scope.
Local Open Scope state_scope.

Record onset_detector : Type := {
  _env : peak_envelope_follower;
  _sensitivity : T;
  _lp : one_pole_lowpass;
  _comp : schmitt_trigger;
  _val : T
}.

Definition set_env (e : peak_envelope_follower) (o : onset_detector)
  : onset_detector :=
  {| _env := e; _sensitivity := _sensitivity o; _lp := _lp o;
     _comp := _comp o; _val := _val o |}.

Definition set_lp (l : one_pole_lowpass) (o : onset_detector)
  : onset_detector :=
  {| _env := _env o; _sensitivity := _sensitivity o; _lp := l;
     _comp := _comp o; _val := _val o |}.

Definition set_comp (c : schmitt_trigger) (o : onset_detector)
  : onset_detector :=
  {| _env := _env o; _sensitivity := _sensitivity o; _lp := _lp o;
     _comp := c; _val := _val o |}.

Definition set_val (v : T) (o : onset_detector) : onset_detector :=
  {| _env := _env o; _sensitivity := _sensitivity o; _lp := _lp o;
     _comp := _comp o; _val := v |}.

(** [onset_detector(float sensitivity, duration decay, std::uint32_t sps)] *)
Definition make (sensitivity decay : T) (sps : N) : onset_detector :=
  {| _env := peak_envelope_follower_make decay sps;
     _sensitivity := sensitivity;
     _lp := one_pole_lowpass_make (frequency_of_duration decay) sps;
     _comp := schmitt_trigger_make minus_36_dB;
     _val := zero |}.

(** [float operator()(float s)] *)
Definition operator_call (s : T) : State onset_detector T :=
  let abs_s := sabs s in
  env <- zoom _env set_env (peak_envelope_follower_call abs_s) ;;
  lp <- zoom _lp set_lp (one_pole_lowpass_call env) ;;
  o <- get ;;
  c <- zoom _comp set_comp (schmitt_trigger_call (env * _sensitivity o) lp) ;;
  if c then
    o' <- get ;;
    modify (set_val (std_max (_val o') abs_s)) ;;
    o'' <- get ;;
    ret (_val o'')
  else
    modify (set_val zero) ;;
    ret zero.

(** [float operator()() const] *)
Definition operator_call_const : State onset_detector T :=
  o <- get ;;
  ret (_val o).

(** The intermediate values of one call on the sample [s] in the state
    [o], named as in the algorithm: the magnitude, the envelope, the
    trailing value and the verdict of the comparator. *)
Definition magnitude (s : T) : T := sabs s.

Definition envelope (o : onset_detector) (s : T) : T :=
  fst (peak_envelope_follower_call (magnitude s) (_env o)).

Definition trailing (o : onset_detector) (s : T) : T :=
  fst (one_pole_lowpass_call (envelope o s) (_lp o)).

Definition above (o : onset_detector) (s : T) : bool :=
  fst (schmitt_trigger_call (envelope o s * _sensitivity o) (trailing o s)
         (_comp o)).

(** The detector after the three collaborators have advanced, with the
    latch [v]. *)
Definition advanced (o : onset_detector) (s : T) (v : T) : onset_detector :=
  {| _env := snd (peak_envelope_follower_call (magnitude s) (_env o));
     _sensitivity := _sensitivity o;
     _lp := snd (one_pole_lowpass_call (envelope o s) (_lp o));
     _comp := snd (schmitt_trigger_call (envelope o s * _sensitivity o)
                     (trailing o s) (_comp o));
     _val := v |}.

End Def.
Arguments onset_detector T {_ _}.
End OnsetDetector.

(** ** peak *)

Module Peak.
Section Def.
Context {T : Type} {SampleT : Sample T} {SchmittT : Schmitt T}.
Local Open Scope sample_scope.
Local Open Scope state_scope.

Record peak : Type := {
  _sensitivity : T;
  _cmp : schmitt_trigger
}.

Definition set_cmp (c : schmitt_trigger) (p : peak) : peak :=
  {| _sensitivity := _sensitivity p; _cmp := c |}.

(** [peak(float sensitivity, float hysteresis)] *)
Definition make (sensitivity hysteresis : T) : peak :=
  {| _sensitivity := sensitivity; _cmp := schmitt_trigger_make hysteresis |}.

(** [return _cmp(s, env * _sensitivity);] *)
Definition operator_call (s env : T) : State peak bool :=
  p <- get ;;
  zoom _cmp set_cmp (schmitt_trigger_call s (env * _sensitivity p)).

End Def.
Arguments peak T {_}.
End Peak.

(** ** The threshold comparator of the interface description

    Modelled from the spec: [schmitt_trigger] of q/fx.hpp is not part of
    the sources at hand.  Its contract: it maintains one latched boolean;
    the latch flips only when the value has moved past the reference by
    more than half the configured hysteresis width, in the direction
    opposite to the last flip; otherwise the call returns the previous
    latch.  The latch starts released.  The detectors are verified for
    every comparator; this one runs them on concrete samples. *)

Module SpecSchmitt.
Section Def.
Context {T : Type} {SampleT : Sample T}.
Local Open Scope sample_scope.
Local Open Scope state_scope.

Record comparator : Type := { half_width : T; latch : bool }.

Definition set_latch (b : bool) (c : comparator) : comparator :=
  {| half_width := half_width c; latch := b |}.

Definition make (hysteresis : T) : comparator :=
  {| half_width := hysteresis / two; latch := false |}.

Definition compare (value reference : T) : State comparator bool :=
  c <- get ;;
  (if negb (latch c) && (reference + half_width c <? value)
   then modify (set_latch true)
   else if latch c && (value <? reference - half_width c)
   then modify (set_latch false)
   else ret tt) ;;
  c' <- get ;;
  ret (latch c').

End Def.
Arguments comparator T : clear implicits.

Definition instance (T : Type) {SampleT : Sample T} : Schmitt T := {|
  schmitt_trigger := comparator T;
  schmitt_trigger_make := make;
  schmitt_trigger_call := compare
|}.
Arguments instance T {SampleT}.

End SpecSchmitt.


(** ** Configurations and reachable states of the smoother

    The stability properties are stated in exact arithmetic.  A smoother
    is [tuned] when its base coefficient is positive and its scaled
    sensitivity is not negative.  [reachable B d] collects the states that
    a caller can produce from a constructor call with a base frequency
    strictly between 0 and half the sampling rate and a non-negative
    sensitivity, by feeding samples of magnitude at most [B] and by
    retuning to such a base frequency. *)

Module SmootherStability.
Import DynamicSmoother.
Local Open Scope R_scope.

Definition valid_base (base : R) (sps : N) : Prop :=
  0 < base < IZR (Z.of_N sps) / 2.

Definition tuned (d : dynamic_smoother R) : Prop :=
  0 < g0 d /\ 0 <= sense d.

Definition within (lo hi : R) (d : dynamic_smoother R) : Prop :=
  lo <= low1 d <= hi /\ lo <= low2 d <= hi.

Inductive reachable (B : R) : dynamic_smoother R -> Prop :=
| reach_make (base sensitivity : R) (sps : N) :
    valid_base base sps -> 0 <= sensitivity ->
    reachable B (make base sensitivity sps)
| reach_call (d : dynamic_smoother R) (s : R) :
    reachable B d -> Rabs s <= B ->
    reachable B (snd (operator_call s d))
| reach_retune (d : dynamic_smoother R) (base : R) (sps : N) :
    reachable B d -> valid_base base sps ->
    reachable B (snd (base_frequency base sps d)).

(** What every reachable state satisfies. *)
Definition stable (B : R) (d : dynamic_smoother R) : Prop :=
  0 < wc d < 1 / 2 /\
  g0 d = base_coefficient (wc d) /\
  0 <= sense d /\
  within (- B) B d.

End SmootherStability.

(** ** The envelope primitives of the interface description

    Modelled from the spec: [one_pole_lowpass] and
    [peak_envelope_follower] of q/fx.hpp are not part of the sources at
    hand.  Their contracts: the low-pass is constructed from a cutoff
    frequency and a sampling rate and is a single exponential smoothing
    stage; the follower is constructed from a decay duration and a
    sampling rate, rises instantly and decays exponentially toward zero;
    a frequency is the inverse of a duration.  The contracts leave open
    how the smoothing coefficient and the decay factor derive from the
    configuration, so the two mappings and the value of the literal
    [-36_dB] are parameters.  The onset detector is verified for every
    pair of primitives; these run it on concrete samples. *)

Module SpecEnvelope.
Section Def.
Context {T : Type} {SampleT : Sample T}.
Variable smoothing : T -> N -> T.
Variable decay_factor : T -> N -> T.
Variable threshold : T.
Local Open Scope sample_scope.
Local Open Scope state_scope.

Record lowpass : Type := { coefficient : T; smoothed : T }.

Definition lowpass_make (frequency : T) (sps : N) : lowpass :=
  {| coefficient := smoothing frequency sps; smoothed := zero |}.

Definition lowpass_update (s : T) : State lowpass T :=
  l <- get ;;
  let y := smoothed l + coefficient l * (s - smoothed l) in
  put {| coefficient := coefficient l; smoothed := y |} ;;
  ret y.

Record follower : Type := { factor : T; level : T }.

Definition follower_make (decay : T) (sps : N) : follower :=
  {| factor := decay_factor decay sps; level := zero |}.

Definition follower_update (s : T) : State follower T :=
  f <- get ;;
  let y := if level f <? s then s else level f * factor f in
  put {| factor := factor f; level := y |} ;;
  ret y.

Definition instance : Envelope T := {|
  one_pole_lowpass := lowpass;
  one_pole_lowpass_make := lowpass_make;
  one_pole_lowpass_call := lowpass_update;
  peak_envelope_follower := follower;
  peak_envelope_follower_make := follower_make;
  peak_envelope_follower_call := follower_update;
  frequency_of_duration := fun d => one / d;
  minus_36_dB := threshold
|}.

End Def.
End SpecEnvelope.

(** ** The configuration of the smoother as the compiled code computes it

    The constructor and [base_frequency] of [dynamic_smoother] do not
    stay in [float]: [double(base) / sps] is a quotient of two [double]
    values that is narrowed once, when it is stored in the [float]
    member [wc]; [pi * wc], the tangent and [2.0f * gc / (1.0f + gc)]
    are evaluated in [double], and the last is narrowed when it is
    stored in [g0].  [DynamicSmoother.make] and
    [DynamicSmoother.base_frequency] read the formulas in one
    arithmetic; this is their reading in the two formats of the compiled
    code.  [pi] and [std::tan] remain parameters, now on [double]. *)

Module B64.

Definition prec : Z := 53.
Definition emax : Z := 1024.

Abbreviation float := spec_float (only parsing).

(** The value [m * 2^e], rounded to nearest even. *)
Definition of_dyadic (m e : Z) : float := binary_normalize prec emax m e false.

Definition add : float -> float -> float := SFadd prec emax.
Definition mul : float -> float -> float := SFmul prec emax.
Definition div : float -> float -> float := SFdiv prec emax.

(** A [std::uint32_t] converted to [double]: every value is
    representable. *)
Definition of_uint32 (n : N) : float := of_dyadic (Z.of_N n) 0.

(** A [float] converted to [double]: the same value, with the mantissa
    of the wider format. *)
Definition of_single (f : B32.float) : float :=
  match f with
  | S754_finite s m e => binary_normalize prec emax (cond_Zopp s (Zpos m)) e s
  | _ => f
  end.

(** A [double] narrowed to [float]: rounded to nearest even, to an
    infinity beyond the range of [float] and to a zero of the same sign
    below half its least positive value. *)
Definition to_single (f : float) : B32.float :=
  match f with
  | S754_finite s m e =>
      binary_normalize B32.prec B32.emax (cond_Zopp s (Zpos m)) e s
  | _ => f
  end.

End B64.

Module DynamicSmootherSingle.
Import DynamicSmoother.
Section Def.
Context {TrigD : Trig B64.float}.
Local Open Scope sample_scope.
Local Open Scope state_scope.

(** [double(base) / sps], as stored in [wc]. *)
Definition normalized_cutoff (base : B64.float) (sps : N) : B32.float :=
  B64.to_single (B64.div base (B64.of_uint32 sps)).

(** [gc = std::tan(pi * wc)] and [2.0f * gc / (1.0f + gc)], as stored in
    [g0]. *)
Definition base_coefficient (w : B32.float) : B32.float :=
  let gc := std_tan (B64.mul pi (B64.of_single w)) in
  B64.to_single
    (B64.div (B64.mul (B64.of_single two) gc)
       (B64.add (B64.of_single one) gc)).

(** [dynamic_smoother(frequency base, float sensitivity, std::uint32_t sps)] *)
Definition make (base : B64.float) (sensitivity : B32.float) (sps : N)
  : dynamic_smoother B32.float :=
  let d := {| sense := sensitivity * four;
              wc := B64.to_single (B64.div base (B64.of_uint32 sps));
              g0 := zero;
              low1 := zero;
              low2 := zero |} in
  let gc := std_tan (B64.mul pi (B64.of_single (wc d))) in
  set_g0 (B64.to_single
            (B64.div (B64.mul (B64.of_single two) gc)
               (B64.add (B64.of_single one) gc))) d.

(** [void base_frequency(frequency base, std::uint32_t sps)] *)
Definition base_frequency (base : B64.float) (sps : N)
  : State (dynamic_smoother B32.float) unit :=
  modify (set_wc (B64.to_single (B64.div base (B64.of_uint32 sps)))) ;;
  d <- get ;;
  let gc := std_tan (B64.mul pi (B64.of_single (wc d))) in
  modify (set_g0 (B64.to_single
                    (B64.div (B64.mul (B64.of_single two) gc)
                       (B64.add (B64.of_single one) gc)))).

End Def.

(** A base frequency strictly between 0 and half the sampling rate,
    compared in [double]. *)
Definition in_range (base : B64.float) (sps : N) : bool :=
  SFltb (S754_zero false) base &&
  SFltb base (B64.div (B64.of_uint32 sps) (B64.of_dyadic 2 0)).

End DynamicSmootherSingle.

(** A tangent to run the configuration on: the double nearest to pi and
    the first two terms [x + x^3 / 3] of the tangent series, evaluated
    in [double].  It is exact at 0 and serves the examples only; the
    facts about the configuration hold for every tangent. *)

Module SeriesTan.

Definition tan (x : B64.float) : B64.float :=
  B64.add x (B64.div (B64.mul x (B64.mul x x)) (B64.of_dyadic 3 0)).

Definition instance : Trig B64.float := {|
  pi := B64.of_dyadic 884279719003555 (-48);
  std_tan := tan
|}.

End SeriesTan.

(** Classes of single-precision values. *)

Module B32Class.

Definition is_zero (f : B32.float) : bool :=
  match f with S754_zero _ => true | _ => false end.

Definition is_infinite (f : B32.float) : bool :=
  match f with S754_infinity _ => true | _ => false end.

(** [FLT_MAX], [(2^24 - 1) 2^104]. *)
Definition flt_max : B32.float := S754_finite false 16777215 104.

End B32Class.

(** ** Streams through the downsampler *)

Module DownsamplerStreams.

(** Both samples of a pair lie between [lo] and [hi]. *)
Definition pair_within (lo hi : R) (p : R * R) : Prop :=
  (lo <= fst p <= hi /\ lo <= snd p <= hi)%R.

(** Both samples of a pair are values of [std::uint16_t]. *)
Definition u16_pair (p : Z * Z) : Prop :=
  (0 <= fst p < U16.modulus /\ 0 <= snd p < U16.modulus)%Z.

End DownsamplerStreams.

(** ** The smoother on streams, in exact arithmetic *)

Module SmootherDynamics.
Import DynamicSmoother.
Local Open Scope R_scope.

(** The larger distance of the two registers from a level [c]. *)
Definition deviation (c : R) (d : dynamic_smoother R) : R :=
  Rmax (Rabs (low1 d - c)) (Rabs (low2 d - c)).

(** The least value the per-sample coefficient takes: the clamped base
    coefficient. *)
Definition base_rate (d : dynamic_smoother R) : R := Rmin (g0 d) 1.

(** The same smoother with both registers raised by [k], and with both
    registers negated. *)
Definition shift (k : R) (d : dynamic_smoother R) : dynamic_smoother R :=
  {| sense := sense d; wc := wc d; g0 := g0 d;
     low1 := low1 d + k; low2 := low2 d + k |}.

Definition negate (d : dynamic_smoother R) : dynamic_smoother R :=
  {| sense := sense d; wc := wc d; g0 := g0 d;
     low1 := - low1 d; low2 := - low2 d |}.

(** The outputs of a [dynamic_lowpass] that starts at [y] and is called
    with the coefficient [a] on every sample of [l]. *)
Definition stage (a y : R) (l : list R) : list R :=
  fst (run (fun s => DynamicLowpass.operator_call s a) l
         {| DynamicLowpass._y := y |}).

End SmootherDynamics.

(** ** Streams through the low-pass *)

Module LowpassStreams.
Import DynamicLowpass.

(** One call on a sample and its coefficient. *)
Definition operator_call_pair {T : Type} {SampleT : Sample T} (p : T * T)
  : State (dynamic_lowpass T) T :=
  operator_call (fst p) (snd p).

(** A sample between [lo] and [hi] with a coefficient in [0, 1]. *)
Definition tame (lo hi : R) (p : R * R) : Prop :=
  (lo <= fst p <= hi /\ 0 <= snd p <= 1)%R.

End LowpassStreams.

(** ** Streams through the onset detector *)

Module OnsetStreams.
Import OnsetDetector.
Section Def.
Context {T : Type} {SampleT : Sample T} {SchmittT : Schmitt T}
  {EnvelopeT : Envelope T}.

(** The comparator reports "above" on every sample of the stream. *)
Fixpoint all_above (o : onset_detector T) (l : list T) : bool :=
  match l with
  | [] => true
  | s :: rest => above o s && all_above (snd (operator_call s o)) rest
  end.

(** The successive values of [std::max] folded over a stream. *)
Fixpoint running_max (v : T) (l : list T) : list T :=
  match l with
  | [] => []
  | m :: rest => std_max v m :: running_max (std_max v m) rest
  end.

End Def.

(** A single-precision value that is a number with a clear sign bit:
    [+0], a positive finite number or [+infinity]. *)
Definition sign_clear (f : B32.float) : bool :=
  match f with
  | S754_zero s | S754_infinity s | S754_finite s _ _ => negb s
  | S754_nan => false
  end.

End OnsetStreams.

(** ** Streams through the peak detector *)

Module PeakStreams.
Import Peak.

(** One call on a sample and the envelope supplied with it. *)
Definition operator_call_pair {T : Type} {SampleT : Sample T}
  {SchmittT : Schmitt T} (p : T * T) : State (peak T) bool :=
  operator_call (fst p) (snd p).

End PeakStreams.

(** ** test/pitch_follower.cpp: normalizing the input channel

    [process] reads the samples, takes the one of greatest magnitude,
    [auto max_val = *std::max_element(in.begin(), in.end(),
       [](auto a, auto b) { return std::abs(a) < std::abs(b); });]
    and writes [out[ch1] = s * 1.0 / max_val] for every sample [s].
    [std::max_element] keeps the first element and replaces it by each
    later one that the comparison ranks strictly higher; on an empty
    range it returns the end iterator, which must not be dereferenced:
    there is no value then. *)

Module PitchFollowerTest.
Section Def.
Context {T : Type} {SampleT : Sample T}.
Local Open Scope sample_scope.

Definition abs_less (a b : T) : bool := sabs a <? sabs b.

Fixpoint max_element_from (largest : T) (l : list T) : T :=
  match l with
  | [] => largest
  | y :: rest =>
      max_element_from (if abs_less largest y then y else largest) rest
  end.

Definition max_val (input : list T) : option T :=
  match input with
  | [] => None
  | first :: rest => Some (max_element_from first rest)
  end.

(** [s * 1.0 / max_val].  The source evaluates the product and the
    quotient in [double] and narrows the result on the store to [out];
    the facts about [normalized] are stated in exact arithmetic. *)
Definition normalized (s max_val : T) : T := s * one / max_val.

End Def.
End PitchFollowerTest.
(** * Properties *)

(** ** The state monad *)

Lemma run_nil {S I O : Type} (step : I -> State S O) (s : S) :
  run step [] s = ([], s).
Proof. reflexivity. Qed.

Lemma run_cons {S I O : Type} (step : I -> State S O) (i : I)
  (rest : list I) (s : S) :
  run step (i :: rest) s =
  (fst (step i s) :: fst (run step rest (snd (step i s))),
   snd (run step rest (snd (step i s)))).
Proof.
  simpl. unfold bind, ret.
  destruct (step i s) as [o s1]. simpl.
  destruct (run step rest s1) as [os s2]. reflexivity.
Qed.

Lemma run_app {S I O : Type} (step : I -> State S O) (l1 l2 : list I)
  (s : S) :
  run step (l1 ++ l2) s =
  (fst (run step l1 s) ++ fst (run step l2 (snd (run step l1 s))),
   snd (run step l2 (snd (run step l1 s)))).
Proof.
  revert s. induction l1 as [|i l1 IH]; intro s.
  - simpl. unfold ret. simpl. now destruct (run step l2 s).
  - cbn [app]. rewrite !run_cons. rewrite IH. reflexivity.
Qed.

(** A property of the state that every step preserves holds after any
    number of steps. *)
Lemma run_invariant {S I O : Type} (step : I -> State S O) (P : S -> Prop) :
  (forall i s, P s -> P (snd (step i s))) ->
  forall inputs s, P s -> P (snd (run step inputs s)).
Proof.
  intros Hstep inputs.
  induction inputs as [|i rest IH]; intros s Hs.
  - exact Hs.
  - rewrite run_cons. simpl. apply IH, Hstep, Hs.
Qed.

(** ** Single precision: order *)

Lemma b32_zero : (zero : B32.float) = S754_zero false.
Proof. reflexivity. Qed.

Lemma b32_one : (one : B32.float) = S754_finite false 8388608 (-23).
Proof. reflexivity. Qed.

(** Swapping the operands of a comparison reverses its outcome; an
    unordered pair stays unordered. *)
Lemma b32_compare_antisym (a b : spec_float) :
  SFcompare a b = option_map CompOpp (SFcompare b a).
Proof.
  destruct a as [sa|sa| |sa ma ea], b as [sb|sb| |sb mb eb]; simpl;
    try reflexivity;
    try (destruct sa; reflexivity); try (destruct sb; reflexivity);
    try (destruct sa, sb; reflexivity).
  destruct sa, sb; simpl; try reflexivity;
    rewrite (Z.compare_antisym ea eb);
    destruct (ea ?= eb)%Z; simpl; try reflexivity;
    try rewrite CompOpp_involutive;
    rewrite Pos.compare_cont_antisym; reflexivity.
Qed.

(** [std::min(a, b)] never compares above its second operand. *)
Lemma b32_min_not_above (a b : B32.float) :
  (b <? b)%S = false -> (b <? std_min a b)%S = false.
Proof.
  intros Hb. unfold std_min.
  destruct (b <? a)%S eqn:E; assumption.
Qed.

(** [std::min(a, b)] is below or equal to a number [b], unless the first
    operand is not a number: then the comparison [b < a] is false and
    [std::min] returns [a]. *)
Lemma b32_min_le (a b : B32.float) :
  B32.leb b b = true ->
  B32.is_nan (std_min a b) || B32.leb (std_min a b) b = true.
Proof.
  intros Hb. unfold std_min.
  destruct (b <? a)%S eqn:E.
  - rewrite Hb. apply orb_true_r.
  - cbn in E. unfold SFltb in E. unfold B32.leb, SFleb.
    rewrite (b32_compare_antisym a b).
    destruct (SFcompare b a) as [[| |]|] eqn:C; simpl; try discriminate.
    + apply orb_true_r.
    + apply orb_true_r.
    + destruct a; try reflexivity; destruct b; simpl in C; discriminate.
Qed.

Lemma b32_min_nan (b : B32.float) : std_min S754_nan b = S754_nan.
Proof. unfold std_min. cbn. destruct b; reflexivity. Qed.

(** ** Single precision: rounding

    The quotients and sums of the downsampler and the product by 1.0 of
    the low-pass, followed through the rounding functions of the
    specification.  A finite number is [S754_finite s m e], of value
    [(-1)^s m 2^e]; it is valid when [m] has 24 bits and
    [-149 <= e <= 104], or fewer bits and [e = -149]. *)

Module B32Rounding.
Local Open Scope Z_scope.

Lemma b32_two : (two : B32.float) = S754_finite false 8388608 (-22).
Proof. reflexivity. Qed.

Lemma b32_four : (four : B32.float) = S754_finite false 8388608 (-21).
Proof. reflexivity. Qed.

Lemma fexp_eq (e : Z) : fexp B32.prec B32.emax e = Z.max (e - 24) (-149).
Proof. reflexivity. Qed.

Lemma pow2_pred (d : Z) : 0 < d -> 2 ^ d = 2 * 2 ^ (d - 1).
Proof.
  intros Hd. replace d with (Z.succ (d - 1)) at 1 by lia.
  apply Z.pow_succ_r. lia.
Qed.

(** [digits2_pos p] is the number of bits of [p]. *)
Lemma digits_bounds (p : positive) :
  2 ^ (Zpos (digits2_pos p) - 1) <= Zpos p < 2 ^ Zpos (digits2_pos p).
Proof.
  induction p as [p IH|p IH|]; cbn [digits2_pos].
  - rewrite Pos2Z.inj_succ, (Pos2Z.inj_xI p).
    set (d := Zpos (digits2_pos p)) in *.
    replace (Z.succ d - 1) with d by lia.
    rewrite Z.pow_succ_r by (subst d; lia).
    rewrite (pow2_pred (d := d)) in * by (subst d; lia).
    generalize dependent (2 ^ (d - 1)). intros; lia.
  - rewrite Pos2Z.inj_succ, (Pos2Z.inj_xO p).
    set (d := Zpos (digits2_pos p)) in *.
    replace (Z.succ d - 1) with d by lia.
    rewrite Z.pow_succ_r by (subst d; lia).
    rewrite (pow2_pred (d := d)) in * by (subst d; lia).
    generalize dependent (2 ^ (d - 1)). intros; lia.
  - simpl. lia.
Qed.

Lemma digits_unique (p : positive) (n : Z) :
  2 ^ (n - 1) <= Zpos p < 2 ^ n -> Zpos (digits2_pos p) = n.
Proof.
  intros [Hlo Hhi]. pose proof (digits_bounds p) as [Dlo Dhi].
  set (d := Zpos (digits2_pos p)) in *.
  assert (0 < d) by (subst d; lia).
  destruct (Z.lt_trichotomy d n) as [Hlt|[Heq|Hgt]]; [|exact Heq|].
  - assert (2 ^ d <= 2 ^ (n - 1)) by (apply Z.pow_le_mono_r; lia). lia.
  - assert (n <= 0 \/ 0 < n) as [Hn|Hn] by lia.
    + assert (2 ^ n <= 2 ^ 0) by (apply Z.pow_le_mono_r_iff; lia).
      simpl in *. lia.
    + assert (2 ^ n <= 2 ^ (d - 1)) by (apply Z.pow_le_mono_r; lia). lia.
Qed.

Lemma valid_finite (s : bool) (m : positive) (e : Z) :
  B32.valid (S754_finite s m e) = true ->
  fexp B32.prec B32.emax (Zpos (digits2_pos m) + e) = e /\ e <= 104.
Proof.
  unfold B32.valid. cbn [valid_binary]. unfold bounded, canonical_mantissa.
  intros H. apply andb_prop in H as [H1 H2].
  apply Z.eqb_eq in H1. apply Z.leb_le in H2.
  unfold B32.emax, B32.prec in *. split; [exact H1|lia].
Qed.

(** A valid number with an exponent above the least one is normal. *)
Lemma valid_normal (s : bool) (m : positive) (e : Z) :
  B32.valid (S754_finite s m e) = true -> -149 < e ->
  Zpos (digits2_pos m) = 24.
Proof.
  intros Hv He. apply valid_finite in Hv as [Hc _].
  rewrite fexp_eq in Hc. lia.
Qed.

(** *** Shifting a mantissa right *)

Lemma shr_1_nonneg (m : Z) (r s : bool) :
  0 <= m ->
  shr_1 {| shr_m := m; shr_r := r; shr_s := s |} =
  {| shr_m := m / 2; shr_r := Z.odd m; shr_s := r || s |}.
Proof.
  intros Hm. rewrite <- Z.div2_div.
  destruct m as [|[p|p|]|p]; try reflexivity. lia.
Qed.

Lemma shr_fexp_by (m e k : Z) (l : location) :
  fexp B32.prec B32.emax (Zdigits2 m + e) - e = k ->
  shr_fexp B32.prec B32.emax m e l = shr (shr_record_of_loc m l) e k.
Proof. intros <-. reflexivity. Qed.

Lemma leb_emax (e : Z) : e <= 104 -> (e <=? B32.emax - B32.prec) = true.
Proof. intros He. apply Z.leb_le. unfold B32.emax, B32.prec. lia. Qed.

(** A mantissa that is already in place is kept. *)
Lemma round_aux_exact (sx : bool) (m : positive) (ex : Z) :
  fexp B32.prec B32.emax (Zpos (digits2_pos m) + ex) = ex ->
  ex <= 104 ->
  binary_round_aux B32.prec B32.emax sx (Zpos m) ex loc_Exact =
  S754_finite sx m ex.
Proof.
  intros Hc Hb. unfold binary_round_aux.
  rewrite (@shr_fexp_by (Zpos m) ex 0) by (cbn [Zdigits2]; lia).
  cbn [shr shr_m shr_record_of_loc loc_of_shr_record round_nearest_even].
  rewrite (@shr_fexp_by (Zpos m) ex 0) by (cbn [Zdigits2]; lia).
  cbn [shr shr_m shr_record_of_loc].
  rewrite leb_emax by exact Hb. reflexivity.
Qed.

(** The second normalisation leaves a rounded mantissa of 24 bits
    alone. *)
Lemma round_aux_finish (sx : bool) (r : Z) (e : Z) :
  2 ^ 23 <= r < 2 ^ 24 -> -149 <= e <= 104 ->
  (let '(mrs, e'') := shr_fexp B32.prec B32.emax r e loc_Exact in
   match shr_m mrs with
   | Z0 => S754_zero sx
   | Zpos m =>
       if e'' <=? B32.emax - B32.prec
       then S754_finite sx m e'' else S754_infinity sx
   | Zneg _ => S754_nan
   end) = S754_finite sx (Z.to_pos r) e.
Proof.
  intros Hr He. destruct r as [|r|r]; try lia.
  rewrite (@shr_fexp_by (Zpos r) e 0).
  - cbn [shr shr_record_of_loc shr_m].
    rewrite leb_emax by lia. reflexivity.
  - cbn [Zdigits2]. rewrite (@digits_unique r 24) by (simpl; lia).
    rewrite fexp_eq. lia.
Qed.

(** Rounding a mantissa of 25 bits drops one bit, to nearest even. *)
Lemma round_aux_shift1 (sx : bool) (p : positive) (ex : Z) :
  Zpos (digits2_pos p) = 25 ->
  -150 <= ex <= 103 ->
  2 ^ 23 <= B32.nearest_even_1 (Zpos p) < 2 ^ 24 ->
  binary_round_aux B32.prec B32.emax sx (Zpos p) ex loc_Exact =
  S754_finite sx (Z.to_pos (B32.nearest_even_1 (Zpos p))) (ex + 1).
Proof.
  intros Hd He Hr. unfold binary_round_aux.
  rewrite (@shr_fexp_by (Zpos p) ex 1)
    by (cbn [Zdigits2]; rewrite Hd, fexp_eq; lia).
  cbn [shr shr_record_of_loc iter_pos].
  rewrite shr_1_nonneg by lia.
  cbn [shr_m loc_of_shr_record orb].
  replace (round_nearest_even _ _) with (B32.nearest_even_1 (Zpos p)).
  - apply round_aux_finish; [exact Hr|lia].
  - unfold B32.nearest_even_1. cbv zeta.
    destruct (Z.odd (Zpos p)); reflexivity.
Qed.

(** Rounding a mantissa of 26 bits drops two bits, to nearest even. *)
Lemma round_aux_shift2 (sx : bool) (p : positive) (ex : Z) :
  Zpos (digits2_pos p) = 26 ->
  -151 <= ex <= 102 ->
  2 ^ 23 <= B32.nearest_even_2 (Zpos p) < 2 ^ 24 ->
  binary_round_aux B32.prec B32.emax sx (Zpos p) ex loc_Exact =
  S754_finite sx (Z.to_pos (B32.nearest_even_2 (Zpos p))) (ex + 2).
Proof.
  intros Hd He Hr. unfold binary_round_aux.
  rewrite (@shr_fexp_by (Zpos p) ex 2)
    by (cbn [Zdigits2]; rewrite Hd, fexp_eq; lia).
  cbn [shr shr_record_of_loc iter_pos].
  rewrite shr_1_nonneg by lia.
  rewrite shr_1_nonneg by (apply Z.div_pos; lia).
  cbn [orb].
  replace (round_nearest_even _ _) with (B32.nearest_even_2 (Zpos p)).
  - apply round_aux_finish; [exact Hr|lia].
  - unfold B32.nearest_even_2. cbv zeta.
    rewrite Z.div_div by lia. change (2 * 2) with 4.
    cbn [shr_m loc_of_shr_record].
    destruct (Z.odd (Zpos p / 2)), (Z.odd (Zpos p)); reflexivity.
Qed.

(** *** The arithmetic of the three taps on a 24-bit mantissa *)

Lemma odd_mod2 (t : Z) : Z.odd t = (t mod 2 =? 1).
Proof. apply Zodd_mod. Qed.

Lemma even_mod2 (t : Z) : Z.even t = (t mod 2 =? 0).
Proof. apply Zeven_mod. Qed.

Ltac parity :=
  repeat match goal with
  | |- context [Z.odd ?t] => rewrite (odd_mod2 t)
  | |- context [Z.even ?t] => rewrite (even_mod2 t)
  | |- context [(?a =? ?b)] => destruct (Z.eqb_spec a b)
  end;
  Z.div_mod_to_equations; lia.

Lemma nearest_even_1_double (m : positive) :
  B32.nearest_even_1 (Zpos m~0) = Zpos m.
Proof.
  unfold B32.nearest_even_1. cbv zeta. rewrite (Pos2Z.inj_xO m). parity.
Qed.

(** [3 m] below [2^25]: the sum [m + 2 m] is rounded to 24 bits by
    dropping one bit, and adding [m] to the result gives a number that
    rounds to [m]. *)
Lemma taps_round_low (m : Z) :
  2 ^ 23 <= m < 2 ^ 24 -> 3 * m < 2 ^ 25 ->
  2 ^ 23 <= B32.nearest_even_1 (3 * m) < 2 ^ 24 /\
  2 ^ 25 <= 2 * B32.nearest_even_1 (3 * m) + m < 2 ^ 26 /\
  B32.nearest_even_2 (2 * B32.nearest_even_1 (3 * m) + m) = m.
Proof.
  change (2 ^ 23) with 8388608. change (2 ^ 24) with 16777216.
  change (2 ^ 25) with 33554432. change (2 ^ 26) with 67108864.
  intros Hm Ht.
  assert (2 * B32.nearest_even_1 (3 * m) = 3 * m \/
          (2 * B32.nearest_even_1 (3 * m) = 3 * m + 1 /\ m mod 4 = 1) \/
          (2 * B32.nearest_even_1 (3 * m) = 3 * m - 1 /\ m mod 4 = 3))
    as Hr.
  { unfold B32.nearest_even_1. cbv zeta. parity. }
  split; [lia|]. split; [lia|].
  set (r := B32.nearest_even_1 (3 * m)) in *. clearbody r.
  unfold B32.nearest_even_2. cbv zeta. parity.
Qed.

(** [3 m] from [2^25] on: the sum is rounded by dropping two bits; a
    tie occurs only for [m = 2 mod 4], and is then undone by the tie of
    the second sum, because [m] is even. *)
Lemma taps_round_high (m : Z) :
  2 ^ 23 <= m < 2 ^ 24 -> 2 ^ 25 <= 3 * m ->
  2 ^ 23 <= B32.nearest_even_2 (3 * m) < 2 ^ 24 /\
  2 ^ 25 <= 4 * B32.nearest_even_2 (3 * m) + m < 2 ^ 26 /\
  B32.nearest_even_2 (4 * B32.nearest_even_2 (3 * m) + m) = m.
Proof.
  change (2 ^ 23) with 8388608. change (2 ^ 24) with 16777216.
  change (2 ^ 25) with 33554432. change (2 ^ 26) with 67108864.
  intros Hm Ht.
  assert (4 * B32.nearest_even_2 (3 * m) = 3 * m \/
          (4 * B32.nearest_even_2 (3 * m) = 3 * m + 1 /\ m mod 4 = 1) \/
          (4 * B32.nearest_even_2 (3 * m) = 3 * m - 1 /\ m mod 4 = 3) \/
          (4 * B32.nearest_even_2 (3 * m) = 3 * m + 2 /\ m mod 4 = 2) \/
          (4 * B32.nearest_even_2 (3 * m) = 3 * m - 2 /\ m mod 4 = 2))
    as Hr.
  { unfold B32.nearest_even_2. cbv zeta. parity. }
  split; [lia|]. split; [lia|].
  set (r := B32.nearest_even_2 (3 * m)) in *. clearbody r.
  unfold B32.nearest_even_2. cbv zeta. parity.
Qed.

(** *** Sums and quotients *)

Lemma iter_xO (m d : positive) :
  Zpos (Pos.iter xO m d) = Zpos m * 2 ^ Zpos d.
Proof.
  induction d as [|d IH] using Pos.peano_ind.
  - cbn [Pos.iter]. rewrite (Pos2Z.inj_xO m). change (2 ^ 1) with 2. lia.
  - rewrite Pos.iter_succ, (Pos2Z.inj_xO (Pos.iter xO m d)), IH.
    rewrite Pos2Z.inj_succ, Z.pow_succ_r by lia. lia.
Qed.

(** Aligning a mantissa to a smaller exponent multiplies it by the
    power of two in between. *)
Lemma shl_align_fst (mx : positive) (ex ex' : Z) :
  ex' <= ex ->
  Zpos (fst (shl_align mx ex ex')) = Zpos mx * 2 ^ (ex - ex').
Proof.
  intros Hle. unfold shl_align.
  destruct (ex' - ex) as [|d|d] eqn:Hd; cbn [fst].
  - replace (ex - ex') with 0 by lia. simpl. lia.
  - lia.
  - rewrite iter_xO. f_equal. f_equal. lia.
Qed.

Lemma add_same_sign (s : bool) (m1 m2 : positive) (e1 e2 : Z) :
  SFadd B32.prec B32.emax (S754_finite s m1 e1) (S754_finite s m2 e2) =
  binary_round B32.prec B32.emax s
    (fst (shl_align m1 e1 (Z.min e1 e2)) +
     fst (shl_align m2 e2 (Z.min e1 e2)))%positive
    (Z.min e1 e2).
Proof. unfold SFadd. destruct s; reflexivity. Qed.

(** The sum of two finite numbers of the same sign is the rounding of
    the sum of their aligned mantissas. *)
Lemma add_aligned (s : bool) (m1 m2 : positive) (e1 e2 : Z) (t : Z) :
  Zpos m1 * 2 ^ (e1 - Z.min e1 e2) + Zpos m2 * 2 ^ (e2 - Z.min e1 e2) = t ->
  exists p : positive,
    Zpos p = t /\
    SFadd B32.prec B32.emax (S754_finite s m1 e1) (S754_finite s m2 e2) =
    binary_round B32.prec B32.emax s p (Z.min e1 e2).
Proof.
  intros Ht. rewrite add_same_sign.
  eexists. split; [|reflexivity].
  rewrite Pos2Z.inj_add, !shl_align_fst by lia. exact Ht.
Qed.

Lemma binary_round_no_shl (sx : bool) (t : positive) (ex : Z) :
  ex <= fexp B32.prec B32.emax (Zpos (digits2_pos t) + ex) ->
  binary_round B32.prec B32.emax sx t ex =
  binary_round_aux B32.prec B32.emax sx (Zpos t) ex loc_Exact.
Proof.
  intros Hle. unfold binary_round, shl_align.
  destruct (fexp B32.prec B32.emax (Zpos (digits2_pos t) + ex) - ex)
    eqn:Hd; try reflexivity.
  lia.
Qed.

(** Rounding an integer of 25 or 26 bits at exponent [ex]. *)
Lemma round_sum (s : bool) (p : positive) (ex k r : Z) :
  2 ^ 23 <= r < 2 ^ 24 ->
  (k = 1 /\ 2 ^ 24 <= Zpos p < 2 ^ 25 /\ B32.nearest_even_1 (Zpos p) = r \/
   k = 2 /\ 2 ^ 25 <= Zpos p < 2 ^ 26 /\ B32.nearest_even_2 (Zpos p) = r) ->
  -149 <= ex + k <= 104 ->
  binary_round B32.prec B32.emax s p ex = S754_finite s (Z.to_pos r) (ex + k).
Proof.
  intros Hr [(-> & Hp & Hrne)|(-> & Hp & Hrne)] Hex.
  - pose proof (@digits_unique p 25 Hp) as Hdp.
    rewrite binary_round_no_shl by (rewrite Hdp, fexp_eq; lia).
    rewrite round_aux_shift1; rewrite ?Hrne;
      try reflexivity; try assumption; lia.
  - pose proof (@digits_unique p 26 Hp) as Hdp.
    rewrite binary_round_no_shl by (rewrite Hdp, fexp_eq; lia).
    rewrite round_aux_shift2; rewrite ?Hrne;
      try reflexivity; try assumption; lia.
Qed.

Lemma div_eucl_pair (a b : Z) : Z.div_eucl a b = (a / b, a mod b).
Proof. unfold Z.div, Z.modulo. destruct (Z.div_eucl a b); reflexivity. Qed.

(** Dividing a mantissa of 24 bits by the mantissa [2^23] of a power of
    two is exact. *)
Lemma div_core_pow2 (m : positive) (e e2 E : Z) (k : positive) :
  Zpos (digits2_pos m) = 24 ->
  Z.min (fexp B32.prec B32.emax (24 + e - (24 + e2))) (e - e2) = E ->
  e - e2 - E = Zpos k -> 23 <= Zpos k ->
  SFdiv_core_binary B32.prec B32.emax (Zpos m) e (Zpos 8388608) e2 =
  (Zpos m * 2 ^ (Zpos k - 23), E, loc_Exact).
Proof.
  intros Hd HE Hk Hk23. unfold SFdiv_core_binary.
  cbn [Zdigits2]. rewrite Hd.
  change (Zpos (digits2_pos 8388608)) with 24.
  rewrite HE, Hk. rewrite Z.shiftl_mul_pow2 by lia.
  rewrite div_eucl_pair.
  assert (Zpos m * 2 ^ Zpos k = Zpos m * 2 ^ (Zpos k - 23) * 8388608) as Hm.
  { replace (Zpos k) with ((Zpos k - 23) + 23) at 1 by lia.
    rewrite Z.pow_add_r by lia. change (2 ^ 23) with 8388608. lia. }
  rewrite Hm, Z.div_mul, Z.mod_mul by lia.
  reflexivity.
Qed.

Section Normal.
Variables (s : bool) (m : positive) (e : Z).
Hypothesis Hd : Zpos (digits2_pos m) = 24.
Hypothesis He : -147 <= e <= 104.

Lemma mantissa_range : 2 ^ 23 <= Zpos m < 2 ^ 24.
Proof. pose proof (digits_bounds m) as H. rewrite Hd in H. exact H. Qed.

Lemma div_by_mantissa (e2 : Z) :
  -149 <= e - e2 - 24 <= 103 ->
  SFdiv B32.prec B32.emax (S754_finite s m e)
    (S754_finite false 8388608 e2) =
  S754_finite s m (e - e2 - 23).
Proof.
  intros He2. unfold SFdiv.
  rewrite (@div_core_pow2 m e e2 (e - e2 - 24) 24 Hd)
    by (try rewrite fexp_eq; lia).
  change (2 ^ (24 - 23)) with 2. rewrite xorb_false_r.
  replace (Zpos m * 2) with (Zpos m~0) by lia.
  pose proof mantissa_range as Hm.
  rewrite (@round_aux_shift1 s (m~0) (e - e2 - 24)).
  - rewrite nearest_even_1_double. f_equal. lia.
  - cbn [digits2_pos]. lia.
  - lia.
  - rewrite nearest_even_1_double. exact Hm.
Qed.

(** Halving and quartering only lower the exponent. *)
Lemma div_two :
  (S754_finite s m e / two)%S = S754_finite s m (e - 1).
Proof.
  rewrite b32_two. cbn [sdiv binary32].
  rewrite div_by_mantissa by lia. f_equal. lia.
Qed.

Lemma div_four :
  (S754_finite s m e / four)%S = S754_finite s m (e - 2).
Proof.
  rewrite b32_four. cbn [sdiv binary32].
  destruct (Z.eq_dec e (-147)) as [->|Hne].
  - unfold SFdiv.
    rewrite (@div_core_pow2 m (-147) (-21) (-149) 23 Hd)
      by (try rewrite fexp_eq; lia).
    change (2 ^ (23 - 23)) with 1. rewrite xorb_false_r, Z.mul_1_r.
    apply round_aux_exact; [rewrite Hd; reflexivity|lia].
  - rewrite div_by_mantissa by lia. f_equal. lia.
Qed.

(** The quarter plus the half, plus the quarter, is the number
    itself, although the first sum is rounded. *)
Lemma three_taps_normal :
  SFadd B32.prec B32.emax
    (SFadd B32.prec B32.emax
       (S754_finite s m (e - 2)) (S754_finite s m (e - 1)))
    (S754_finite s m (e - 2)) =
  S754_finite s m e.
Proof.
  pose proof mantissa_range as Hm.
  destruct (@add_aligned s m m (e - 2) (e - 1) (3 * Zpos m))
    as (t & Ht & ->).
  { rewrite Z.min_l by lia. replace (e - 2 - (e - 2)) with 0 by lia.
    replace (e - 1 - (e - 2)) with 1 by lia. change (2 ^ 0) with 1.
    change (2 ^ 1) with 2. lia. }
  rewrite Z.min_l by lia.
  destruct (Z.lt_ge_cases (3 * Zpos m) (2 ^ 25)) as [Hlow|Hhigh].
  - destruct (taps_round_low Hm Hlow) as (Hr & Hu & Hback).
    rewrite (@round_sum s t (e - 2) 1 (B32.nearest_even_1 (3 * Zpos m)) Hr)
      by (try lia; left; rewrite Ht; change (2 ^ 24) with 16777216 in *;
          change (2 ^ 23) with 8388608 in *; repeat split; lia).
    set (r := B32.nearest_even_1 (3 * Zpos m)) in *.
    destruct (@add_aligned s (Z.to_pos r) m (e - 2 + 1) (e - 2)
                (2 * r + Zpos m)) as (u & Hu' & ->).
    { rewrite Z.min_r by lia. replace (e - 2 + 1 - (e - 2)) with 1 by lia.
      replace (e - 2 - (e - 2)) with 0 by lia. change (2 ^ 0) with 1.
      change (2 ^ 1) with 2. rewrite Z2Pos.id by lia. lia. }
    rewrite Z.min_r by lia.
    rewrite (@round_sum s u (e - 2) 2 (Zpos m) Hm)
      by (try lia; right; rewrite Hu'; repeat split; try lia; exact Hback).
    f_equal. lia.
  - destruct (taps_round_high Hm Hhigh) as (Hr & Hu & Hback).
    rewrite (@round_sum s t (e - 2) 2 (B32.nearest_even_2 (3 * Zpos m)) Hr)
      by (try lia; right; rewrite Ht; change (2 ^ 26) with 67108864 in *;
          change (2 ^ 24) with 16777216 in *; repeat split; lia).
    set (r := B32.nearest_even_2 (3 * Zpos m)) in *.
    destruct (@add_aligned s (Z.to_pos r) m (e - 2 + 2) (e - 2)
                (4 * r + Zpos m)) as (u & Hu' & ->).
    { rewrite Z.min_r by lia. replace (e - 2 + 2 - (e - 2)) with 2 by lia.
      replace (e - 2 - (e - 2)) with 0 by lia. change (2 ^ 0) with 1.
      change (2 ^ 2) with 4. rewrite Z2Pos.id by lia. lia. }
    rewrite Z.min_r by lia.
    rewrite (@round_sum s u (e - 2) 2 (Zpos m) Hm)
      by (try lia; right; rewrite Hu'; repeat split; try lia; exact Hback).
    f_equal. lia.
Qed.

End Normal.

(** In single precision the three taps of a constant [c] add up to [c]
    for every zero, every infinity and every finite [c] of magnitude at
    least [2^-124]. *)
Lemma b32_three_taps (c : B32.float) :
  B32.quarters_exactly c = true ->
  (c / four + c / two + c / four)%S = c.
Proof.
  destruct c as [s|s| |s m e]; cbn [B32.quarters_exactly]; intros Hc.
  - destruct s; reflexivity.
  - destruct s; reflexivity.
  - discriminate.
  - apply andb_prop in Hc as [Hv He]. apply Z.leb_le in He.
    pose proof (@valid_normal s m e Hv ltac:(lia)) as Hd.
    apply valid_finite in Hv as [_ Hb].
    rewrite (@div_two s m e Hd) by lia.
    rewrite (@div_four s m e Hd) by lia.
    apply three_taps_normal; [exact Hd|lia].
Qed.

(** *** The product by 1.0 *)

Lemma mul_one_finite (s : bool) (m : positive) (e : Z) :
  B32.valid (S754_finite s m e) = true ->
  (one * S754_finite s m e)%S = S754_finite s m e.
Proof.
  intros Hv. apply valid_finite in Hv as [Hc Hb].
  rewrite b32_one. cbn [smul binary32].
  unfold SFmul. cbn [xorb Pos.mul]. unfold binary_round_aux.
  rewrite (@shr_fexp_by _ (-23 + e) 23).
  - cbn [shr shr_record_of_loc iter_pos shr_1 orb shr_m loc_of_shr_record
         round_nearest_even].
    replace (-23 + e + 23) with e by lia.
    rewrite (@shr_fexp_by _ e 0) by (cbn [Zdigits2]; lia).
    cbn [shr shr_record_of_loc shr_m].
    rewrite leb_emax by exact Hb. reflexivity.
  - cbn [Zdigits2 digits2_pos]. rewrite !Pos2Z.inj_succ.
    replace (fexp B32.prec B32.emax _)
      with (fexp B32.prec B32.emax (Zpos (digits2_pos m) + e)); [lia|].
    f_equal. lia.
Qed.

(** Multiplying a valid number by 1.0 returns it. *)
Lemma mul_one (a : B32.float) :
  B32.valid a = true -> (one * a)%S = a.
Proof.
  destruct a as [s|s| |s m e]; intros Hv; try reflexivity.
  apply mul_one_finite, Hv.
Qed.

End B32Rounding.

(** ** Exact arithmetic: order *)

Lemma Rltb_true (a b : R) : Rltb a b = true <-> (a < b)%R.
Proof. unfold Rltb. destruct (Rlt_dec a b); split; intros; auto; discriminate. Qed.

Lemma Rltb_false (a b : R) : Rltb a b = false <-> (b <= a)%R.
Proof.
  unfold Rltb. destruct (Rlt_dec a b); split; intros; auto;
    try discriminate; lra.
Qed.

(** Rewriting the operations of the [exact] instance to those of the
    real numbers, so that the arithmetic tactics apply. *)
Ltac exact_arith :=
  change (@sadd R exact) with Rplus in *;
  change (@ssub R exact) with Rminus in *;
  change (@smul R exact) with Rmult in *;
  change (@sdiv R exact) with Rdiv in *;
  change (@sabs R exact) with Rabs in *;
  change (@sltb R exact) with Rltb in *;
  change (@zero R exact) with 0%R in *;
  change (@one R exact) with 1%R in *;
  change (@two R exact) with 2%R in *;
  change (@four R exact) with 4%R in *;
  change (@of_int R exact) with IZR in *;
  change (@pi R exact_trig) with PI in *;
  change (@std_tan R exact_trig) with tan in *.

Lemma Rabs_le_between (a b : R) : (Rabs a <= b -> - b <= a <= b)%R.
Proof. unfold Rabs. destruct (Rcase_abs a); lra. Qed.

Lemma exact_min (a b : R) : std_min a b = Rmin a b.
Proof.
  unfold std_min. cbn. unfold Rltb, Rmin.
  destruct (Rlt_dec b a), (Rle_dec a b); try reflexivity; lra.
Qed.

Lemma exact_max (a b : R) : std_max a b = Rmax a b.
Proof.
  unfold std_max. cbn. unfold Rltb, Rmax.
  destruct (Rlt_dec a b), (Rle_dec a b); try reflexivity; lra.
Qed.

(** ** fast_downsample *)

Module FastDownsampleFacts.
Import FastDownsample.
Local Open Scope sample_scope.

Lemma fast_downsample_step {T : Type} {SampleT : Sample T}
  (d : fast_downsample T) (s1 s2 : T) :
  operator_call s1 s2 d =
  (x d + s1 / two + s2 / four, {| x := s2 / four |}).
Proof. reflexivity. Qed.

(** One half, three eighths and one eighth in single precision. *)
Example b32_half : B32.of_dyadic 1 (-1) = S754_finite false 8388608 (-24).
Proof. reflexivity. Qed.

Example b32_half_is_quotient : B32.of_dyadic 1 (-1) = (one / two)%S.
Proof. reflexivity. Qed.

(** C2: one call of the downsampler returns [x + s1/2 + s2/4] and leaves
    the carry at [s2/4], in every sample arithmetic; from a zero carry
    the pair (0.5, 0.5) yields 0.375 and leaves the carry at 0.125, and a
    following pair (0.5, 0.5) yields 0.5, both in single precision and in
    exact arithmetic. *)
Theorem fast_downsample_call :
  (forall (T : Type) (SampleT : Sample T) (d : fast_downsample T)
          (s1 s2 : T),
      fst (operator_call s1 s2 d) = x d + s1 / two + s2 / four /\
      x (snd (operator_call s1 s2 d)) = s2 / four) /\
  (let h := B32.of_dyadic 1 (-1) in
   operator_call h h make =
     (B32.of_dyadic 3 (-3), {| x := B32.of_dyadic 1 (-3) |}) /\
   fst (operator_call h h (snd (operator_call h h make))) = h) /\
  (let h := (1 / 2)%R in
   operator_call h h make = ((3 / 8)%R, {| x := (1 / 8)%R |}) /\
   fst (operator_call h h (snd (operator_call h h make))) = h).
Proof.
  split; [|split].
  - intros T SampleT d s1 s2. rewrite fast_downsample_step. split; reflexivity.
  - split; vm_compute; reflexivity.
  - cbv zeta. rewrite !fast_downsample_step. cbn.
    split; [f_equal; [|f_equal]|]; lra.
Qed.

(** Once the carry is [c/4], a call on the pair [(c, c)] returns
    [c/4 + c/2 + c/4] and leaves the carry where it is. *)
Lemma constant_pair_fixpoint {T : Type} {SampleT : Sample T} (c : T) :
  operator_call_pair (c, c) {| x := c / four |} =
  (c / four + c / two + c / four, {| x := c / four |}).
Proof. reflexivity. Qed.

(** If the three-tap sum [c/4 + c/2 + c/4] evaluates to [c] in the
    sample arithmetic, every call on [(c, c)] after the first returns
    [c]. *)
Lemma constant_pair_settles {T : Type} {SampleT : Sample T}
  (c : T) (d : fast_downsample T) (n : nat) :
  c / four + c / two + c / four = c ->
  run operator_call_pair (repeat (c, c) (S n)) d =
  (x d + c / two + c / four :: repeat c n, {| x := c / four |}).
Proof.
  intros Hc. cbn [repeat]. rewrite run_cons.
  change (operator_call_pair (c, c) d)
    with (x d + c / two + c / four, {| x := c / four |}).
  cbn [fst snd].
  assert (run operator_call_pair (repeat (c, c) n) {| x := c / four |} =
          (repeat c n, {| x := c / four |})) as Hrun.
  { induction n as [|n IH]; [reflexivity|].
    cbn [repeat]. rewrite run_cons, constant_pair_fixpoint.
    cbn [fst snd]. rewrite IH, Hc. reflexivity. }
  rewrite Hrun. reflexivity.
Qed.

Lemma exact_three_taps (c : R) : (c / four + c / two + c / four = c)%S.
Proof. cbn. lra. Qed.

Lemma uint16_three_taps (c : Z) :
  (0 <= c < U16.modulus)%Z -> (c mod 4 = 0)%Z ->
  (c / four + c / two + c / four = c)%S.
Proof.
  unfold U16.modulus. intros Hc H4. cbn. unfold U16.wrap, U16.modulus.
  change (4 mod 65536)%Z with 4%Z. change (2 mod 65536)%Z with 2%Z.
  rewrite !Z.quot_div_nonneg by lia.
  pose proof (Z.div_mod c 4 ltac:(lia)) as Hdiv.
  assert (c / 2 = 2 * (c / 4))%Z as H2.
  { replace c with ((c / 4) * 2 * 2)%Z at 1 by lia.
    rewrite Z.div_mul by lia. lia. }
  rewrite H2.
  rewrite (Z.mod_small (c / 4)) by lia.
  rewrite (Z.mod_small (2 * (c / 4))) by lia.
  rewrite (Z.mod_small (c / 4 + 2 * (c / 4))) by lia.
  rewrite Z.mod_small by lia. lia.
Qed.

(** C6 fails as stated.  On unsigned 16-bit samples, the instance the
    header names, the constant [c = 1] has [1/2 = 0] and [1/4 = 0], and
    every call on the pair (1, 1) returns 0.  In single precision both
    quotients of the smallest positive number [2^-149] round to 0, and
    every call on that constant returns 0 as well. *)
Lemma constant_never_reached :
  fst (run (S := fast_downsample Z) operator_call_pair
         [(1, 1); (1, 1); (1, 1)]%Z make) = [0; 0; 0]%Z /\
  (let c := S754_finite false 1 (-149) in
   B32.valid c = true /\
   fst (run operator_call_pair [(c, c); (c, c); (c, c)] make) =
   [S754_zero false; S754_zero false; S754_zero false] /\
   B32.eqb (S754_zero false) c = false).
Proof. repeat split; vm_compute; reflexivity. Qed.

(** Integer samples that are not multiples of 4 settle on a smaller
    value: the constant 5 settles on [1 + 2 + 1 = 4]. *)
Example constant_five_settles_on_four :
  fst (run (S := fast_downsample Z) operator_call_pair
         [(5, 5); (5, 5); (5, 5)]%Z make) = [3; 4; 4]%Z.
Proof. vm_compute. reflexivity. Qed.

(** C6, as amended: feeding the pair [(c, c)] repeatedly makes the
    output exactly [c] on every call after the first whenever halving
    and quartering [c] lose nothing: for every [c] in exact arithmetic;
    in single precision for every zero, every infinity and every finite
    [c] of magnitude at least [2^-124]; on unsigned 16-bit samples for
    every multiple of 4.  The first output is the carry before the call
    plus [c/2 + c/4]. *)
Theorem constant_pair_output :
  (forall (c : R) (d : fast_downsample R) (n : nat),
      fst (run operator_call_pair (repeat (c, c) (S n)) d) =
      (x d + c / two + c / four) :: repeat c n) /\
  (forall (c : B32.float) (d : fast_downsample B32.float) (n : nat),
      B32.quarters_exactly c = true ->
      fst (run operator_call_pair (repeat (c, c) (S n)) d) =
      (x d + c / two + c / four) :: repeat c n) /\
  (forall (c : Z) (d : fast_downsample Z) (n : nat),
      (0 <= c < U16.modulus)%Z -> (c mod 4 = 0)%Z ->
      fst (run operator_call_pair (repeat (c, c) (S n)) d) =
      (x d + c / two + c / four) :: repeat c n).
Proof.
  split; [|split].
  - intros c d n.
    rewrite (constant_pair_settles d n (exact_three_taps c)). reflexivity.
  - intros c d n Hc.
    rewrite (constant_pair_settles d n (B32Rounding.b32_three_taps c Hc)).
    reflexivity.
  - intros c d n Hc H4.
    rewrite (constant_pair_settles d n (uint16_three_taps Hc H4)).
    reflexivity.
Qed.

(** The constant nearest to 0.1 in single precision, [13421773 * 2^-27],
    whose first sum [c/4 + c/2] is rounded, and the 16-bit constant 8. *)
Lemma constant_pair_output_witness :
  (let c := S754_finite false 13421773 (-27) in
   fst (run operator_call_pair (repeat (c, c) 3) make) =
   [S754_finite false 10066330 (-27); c; c]) /\
  fst (run (S := fast_downsample Z) operator_call_pair
         (repeat (8, 8)%Z 3) make) = [6; 8; 8]%Z.
Proof.
  split.
  - cbv zeta.
    change (S754_finite false 10066330 (-27))
      with (x make + S754_finite false 13421773 (-27) / two
            + S754_finite false 13421773 (-27) / four).
    apply (proj1 (proj2 constant_pair_output)
             (S754_finite false 13421773 (-27)) make 2%nat).
    reflexivity.
  - change [6; 8; 8]%Z
      with ((x make + 8%Z / two + 8%Z / four) :: repeat 8%Z 2).
    apply (proj2 (proj2 constant_pair_output) 8%Z make 2%nat).
    + unfold U16.modulus. lia.
    + reflexivity.
Defined.

End FastDownsampleFacts.

(** ** Single precision: which results are numbers

    The rounding functions of the specification return a zero, a finite
    number or an infinity whenever the mantissa they round is not
    negative; so a sum, difference or product is not a number only in
    the cases the standard names: a product of a zero and an infinity,
    a difference of equal infinities, an operand that is not a number. *)

Module FloatClassFacts.
Section Rounded.
Variables prec emax : Z.
Local Open Scope Z_scope.

Lemma shr_1_keeps_sign (mrs : shr_record) :
  0 <= shr_m mrs -> 0 <= shr_m (shr_1 mrs).
Proof.
  destruct mrs as [m r s]. cbn [shr_m]. intros H.
  destruct m as [|p|p]; [cbn; lia| |lia].
  destruct p; cbn; lia.
Qed.

Lemma iter_shr_1_keeps_sign (p : positive) (mrs : shr_record) :
  0 <= shr_m mrs -> 0 <= shr_m (iter_pos shr_1 p mrs).
Proof.
  revert mrs. induction p as [p IH|p IH|]; intros mrs H; cbn [iter_pos].
  - apply IH, IH, shr_1_keeps_sign, H.
  - apply IH, IH, H.
  - apply shr_1_keeps_sign, H.
Qed.

Lemma shr_fexp_keeps_sign (m e : Z) (l : location) :
  0 <= m -> 0 <= shr_m (fst (shr_fexp prec emax m e l)).
Proof.
  intros H. unfold shr_fexp, shr.
  assert (0 <= shr_m (shr_record_of_loc m l)) as H0
    by (destruct l as [|[]]; exact H).
  destruct (fexp prec emax (Zdigits2 m + e) - e); cbn [fst];
    [exact H0|apply iter_shr_1_keeps_sign, H0|exact H0].
Qed.

Lemma round_nearest_even_keeps_sign (m : Z) (l : location) :
  0 <= m -> 0 <= round_nearest_even m l.
Proof.
  intros H. destruct l as [|[]]; cbn; try lia.
  destruct (Z.even m); lia.
Qed.

Lemma binary_round_aux_is_number (s : bool) (m e : Z) (l : location) :
  0 <= m -> B32.is_nan (binary_round_aux prec emax s m e l) = false.
Proof.
  intros H. unfold binary_round_aux.
  pose proof (@shr_fexp_keeps_sign m e l H) as H1.
  destruct (shr_fexp prec emax m e l) as [mrs' e'] eqn:E1. cbn [fst] in H1.
  pose proof (@round_nearest_even_keeps_sign _ (loc_of_shr_record mrs') H1)
    as H2.
  pose proof (@shr_fexp_keeps_sign _ e' loc_Exact H2) as H3.
  destruct (shr_fexp prec emax _ e' loc_Exact) as [mrs'' e''] eqn:E2.
  cbn [fst] in H3.
  destruct (shr_m mrs'') as [|p|p]; [reflexivity| |lia].
  destruct (e'' <=? emax - prec); reflexivity.
Qed.

Lemma binary_round_is_number (s : bool) (m : positive) (e : Z) :
  B32.is_nan (binary_round prec emax s m e) = false.
Proof.
  unfold binary_round.
  destruct (shl_align m e _) as [mz ez].
  apply binary_round_aux_is_number. lia.
Qed.

Lemma binary_normalize_is_number (m e : Z) (s : bool) :
  B32.is_nan (binary_normalize prec emax m e s) = false.
Proof.
  destruct m; cbn [binary_normalize]; [reflexivity| |];
    apply binary_round_is_number.
Qed.

End Rounded.

Import B32 B32Class.
Local Open Scope sample_scope.

(** The difference of two finite numbers is a number. *)
Lemma b32_sub_is_number (a b : B32.float) :
  is_finite a = true -> is_finite b = true -> is_nan (a - b) = false.
Proof.
  intros Ha Hb. destruct a as [sa|sa| |sa ma ea]; try discriminate;
    destruct b as [sb|sb| |sb mb eb]; try discriminate.
  - destruct sa, sb; reflexivity.
  - reflexivity.
  - reflexivity.
  - apply binary_normalize_is_number.
Qed.

(** The sum of a finite number and a number is a number. *)
Lemma b32_add_is_number (a b : B32.float) :
  is_finite a = true -> is_nan b = false -> is_nan (a + b) = false.
Proof.
  intros Ha Hb. destruct a as [sa|sa| |sa ma ea]; try discriminate;
    destruct b as [sb|sb| |sb mb eb]; try discriminate; try reflexivity.
  - destruct sa, sb; reflexivity.
  - apply binary_normalize_is_number.
Qed.

(** The product of a finite number and a number is a number unless it
    is the product of a zero and an infinity. *)
Lemma b32_mul_is_nan (a b : B32.float) :
  is_finite a = true -> is_nan b = false ->
  is_nan (a * b) = is_zero a && is_infinite b.
Proof.
  intros Ha Hb. destruct a as [sa|sa| |sa ma ea]; try discriminate;
    destruct b as [sb|sb| |sb mb eb]; try discriminate; try reflexivity.
  apply binary_round_aux_is_number. lia.
Qed.

Lemma b32_abs_is_nan (a : B32.float) : is_nan (sabs a) = is_nan a.
Proof. destruct a; reflexivity. Qed.

Lemma b32_abs_is_infinite (a : B32.float) :
  is_infinite (sabs a) = is_infinite a.
Proof. destruct a; reflexivity. Qed.

(** [std::min(a, 1.0f)] is not a number exactly when [a] is not. *)
Lemma b32_min_one_is_nan (a : B32.float) :
  is_nan (std_min a one) = is_nan a.
Proof.
  unfold std_min. destruct (one <? a) eqn:E; [|reflexivity].
  destruct a; try reflexivity. discriminate.
Qed.

End FloatClassFacts.

(** ** dynamic_smoother *)

Module DynamicSmootherFacts.
Import DynamicSmoother.
Local Open Scope sample_scope.

(** The call as one equation: the result is the second register before
    the update; both registers move by the coefficient [g] of the state
    before the update, the second one towards the new first one. *)
Lemma dynamic_smoother_step {T : Type} {SampleT : Sample T}
  (d : dynamic_smoother T) (s : T) :
  operator_call s d =
  (low2 d,
   {| sense := sense d;
      wc := wc d;
      g0 := g0 d;
      low1 := low1 d + g d * (s - low1 d);
      low2 := low2 d + g d * (low1 d + g d * (s - low1 d) - low2 d) |}).
Proof. reflexivity. Qed.

Lemma base_frequency_step {T : Type} {SampleT : Sample T} {TrigT : Trig T}
  (d : dynamic_smoother T) (base : T) (sps : N) :
  base_frequency base sps d =
  (tt,
   {| sense := sense d;
      wc := base / of_int (Z.of_N sps);
      g0 := base_coefficient (base / of_int (Z.of_N sps));
      low1 := low1 d;
      low2 := low2 d |}).
Proof. reflexivity. Qed.

(** The constructor and the reconfiguration derive the same
    coefficients. *)
Lemma make_base_frequency {T : Type} {SampleT : Sample T} {TrigT : Trig T}
  (base sensitivity : T) (sps : N) :
  snd (base_frequency base sps (make base sensitivity sps)) =
  make base sensitivity sps.
Proof. reflexivity. Qed.

(** C4: the value returned by the per-sample call is [stage2_prev], the
    second register before this sample's update, while the stored
    registers become [stage1_new] and [stage2_new]; the configuration
    members are untouched. *)
Theorem dynamic_smoother_output_lag :
  forall (T : Type) (SampleT : Sample T) (d : dynamic_smoother T) (s : T),
    let stage1_prev := low1 d in
    let stage2_prev := low2 d in
    let stage1_new := stage1_prev + g d * (s - stage1_prev) in
    let stage2_new := stage2_prev + g d * (stage1_new - stage2_prev) in
    let d' := snd (operator_call s d) in
    fst (operator_call s d) = stage2_prev /\
    low1 d' = stage1_new /\
    low2 d' = stage2_new /\
    sense d' = sense d /\ wc d' = wc d /\ g0 d' = g0 d.
Proof.
  intros T SampleT d s. cbv zeta. rewrite dynamic_smoother_step.
  repeat split.
Qed.

(** C7: the base-frequency reconfiguration recomputes the normalized
    cutoff [wc = base / sps] and the base coefficient
    [g0 = 2 gc / (1 + gc)] with [gc = tan (pi wc)], and leaves both
    feedback registers (and the sensitivity) exactly as they were. *)
Theorem base_frequency_keeps_registers :
  forall (T : Type) (SampleT : Sample T) (TrigT : Trig T)
         (d : dynamic_smoother T) (base : T) (sps : N),
    let d' := snd (base_frequency base sps d) in
    let gc := std_tan (pi * wc d') in
    wc d' = base / of_int (Z.of_N sps) /\
    g0 d' = two * gc / (one + gc) /\
    low1 d' = low1 d /\
    low2 d' = low2 d /\
    sense d' = sense d.
Proof.
  intros T SampleT TrigT d base sps. cbv zeta.
  rewrite base_frequency_step. repeat split.
Qed.

(** The coefficient in exact arithmetic. *)
Lemma exact_g (d : dynamic_smoother R) :
  g d = Rmin (g0 d + sense d * Rabs (low1 d - low2 d))%R 1.
Proof. unfold g, bandz. rewrite exact_min. reflexivity. Qed.

(** In single precision [g] is not a number exactly when the sum that
    [std::min] receives is not. *)
Lemma g_is_nan (d : dynamic_smoother B32.float) :
  B32.is_nan (g d) = B32.is_nan (g0 d + sense d * sabs (low1 d - low2 d)).
Proof. unfold g, bandz. apply FloatClassFacts.b32_min_one_is_nan. Qed.

Lemma g_number_at_most_one (d : dynamic_smoother B32.float) :
  B32.is_nan (g d) = false -> B32.leb (g d) one = true.
Proof.
  intros H.
  pose proof (@b32_min_le (g0 d + sense d * sabs (bandz d)) one eq_refl)
    as Hle.
  fold (g d) in Hle. rewrite H in Hle. exact Hle.
Qed.

(** With finite members the sum is not a number only when a zero
    sensitivity multiplies an overflowed difference. *)
Lemma finite_state_g_is_nan (d : dynamic_smoother B32.float) :
  B32.is_finite (g0 d) = true -> B32.is_finite (sense d) = true ->
  B32.is_finite (low1 d) = true -> B32.is_finite (low2 d) = true ->
  B32.is_nan (g d) =
  B32Class.is_zero (sense d) && B32Class.is_infinite (low1 d - low2 d).
Proof.
  intros Hg Hs H1 H2. rewrite g_is_nan.
  pose proof (@FloatClassFacts.b32_sub_is_number _ _ H1 H2) as Hb.
  assert (B32.is_nan (sabs (low1 d - low2 d)) = false) as Ha
    by (rewrite FloatClassFacts.b32_abs_is_nan; exact Hb).
  pose proof (@FloatClassFacts.b32_mul_is_nan _ _ Hs Ha) as Hm.
  rewrite FloatClassFacts.b32_abs_is_infinite in Hm.
  destruct (B32Class.is_zero (sense d) &&
            B32Class.is_infinite (low1 d - low2 d)) eqn:E.
  - destruct (sense d * sabs (low1 d - low2 d)); try discriminate.
    destruct (g0 d); reflexivity.
  - apply FloatClassFacts.b32_add_is_number; assumption.
Qed.

(** C1, as amended: the coefficient [g] that the update computes is the
    minimum of [g0 + sense |stage1_prev - stage2_prev|] and 1.  In exact
    arithmetic [g <= 1] for every state and sample.  In single precision
    [g] never compares above 1, and [g <= 1] whenever [g] is a number;
    [g] is not a number exactly when the sum that [std::min] receives is
    not, and then nothing is clamped.  For a state whose members are
    finite that happens exactly when the scaled sensitivity is a zero
    and the difference of the registers overflows to an infinity. *)
Theorem smoother_coefficient_at_most_one :
  (forall (d : dynamic_smoother R) (s : R),
      low1 (snd (operator_call s d)) = low1 d + g d * (s - low1 d) /\
      (g d <= 1)%R) /\
  (forall (d : dynamic_smoother B32.float) (s : B32.float),
      low1 (snd (operator_call s d)) = low1 d + g d * (s - low1 d) /\
      (one <? g d) = false /\
      B32.is_nan (g d) || B32.leb (g d) one = true) /\
  (forall d : dynamic_smoother B32.float,
      B32.is_nan (g d) =
      B32.is_nan (g0 d + sense d * sabs (low1 d - low2 d)) /\
      (B32.is_nan (g d) = false -> B32.leb (g d) one = true)) /\
  (forall d : dynamic_smoother B32.float,
      B32.is_finite (g0 d) = true -> B32.is_finite (sense d) = true ->
      B32.is_finite (low1 d) = true -> B32.is_finite (low2 d) = true ->
      B32.is_nan (g d) =
      B32Class.is_zero (sense d) &&
      B32Class.is_infinite (low1 d - low2 d)).
Proof.
  split; [|split; [|split]].
  - intros d s. split; [reflexivity|].
    rewrite exact_g. apply Rmin_r.
  - intros d s. split; [reflexivity|]. split.
    + apply b32_min_not_above. reflexivity.
    + apply b32_min_le. reflexivity.
  - intros d. split; [apply g_is_nan|apply g_number_at_most_one].
  - apply finite_state_g_is_nan.
Qed.

Lemma smoother_coefficient_at_most_one_witness :
  let d := {| sense := two; wc := B32.of_dyadic 1 (-5); g0 := half;
              low1 := B32Class.flt_max;
              low2 := SFopp B32Class.flt_max |} in
  B32.leb (g d) one = true /\
  B32.is_nan (g d) =
  B32Class.is_zero (sense d) && B32Class.is_infinite (low1 d - low2 d).
Proof.
  cbv zeta. split.
  - apply (proj2 (proj1 (proj2 (proj2 smoother_coefficient_at_most_one))
                    {| sense := two; wc := B32.of_dyadic 1 (-5);
                       g0 := half; low1 := B32Class.flt_max;
                       low2 := SFopp B32Class.flt_max |})).
    vm_compute. reflexivity.
  - apply (proj2 (proj2 (proj2 smoother_coefficient_at_most_one))
             {| sense := two; wc := B32.of_dyadic 1 (-5);
                g0 := half; low1 := B32Class.flt_max;
                low2 := SFopp B32Class.flt_max |});
      vm_compute; reflexivity.
Defined.

(** C1 fails as stated in single precision.  With a scaled sensitivity
    of 0 and the registers at [FLT_MAX] and [-FLT_MAX], all members
    finite, the difference of the registers overflows, [0 * infinity] is
    not a number, [std::min] returns it, and one call leaves both
    registers not a number.  Finite samples lead there as well: from
    registers at 0, a base coefficient of 1/2 and the default scaled
    sensitivity 2, the samples [FLT_MAX] and [-FLT_MAX] drive both
    registers to the same infinity, whose difference is not a number. *)
Lemma smoother_coefficient_not_a_number :
  let d := {| sense := zero; wc := B32.of_dyadic 1 (-5); g0 := half;
              low1 := B32Class.flt_max;
              low2 := SFopp B32Class.flt_max |} in
  let d0 := {| sense := two; wc := B32.of_dyadic 1 (-5); g0 := half;
               low1 := zero; low2 := zero |} in
  let d2 :=
    snd (run operator_call [B32Class.flt_max; SFopp B32Class.flt_max] d0) in
  (B32.valid (low1 d) && B32.valid (low2 d) &&
   B32.is_finite (low1 d) && B32.is_finite (low2 d) = true) /\
  g d = S754_nan /\
  B32.leb (g d) one = false /\
  low1 (snd (operator_call zero d)) = S754_nan /\
  low2 (snd (operator_call zero d)) = S754_nan /\
  g d2 = S754_nan.
Proof. vm_compute. repeat split. Qed.

End DynamicSmootherFacts.

(** ** The configuration in the formats of the compiled code *)

Module DynamicSmootherSingleFacts.
Import DynamicSmoother DynamicSmootherSingle.
Local Open Scope sample_scope.

(** The constructor and the reconfiguration as equations: both store the
    narrowed quotient and the coefficient derived from the stored
    value. *)
Lemma single_make_fields (TrigD : Trig B64.float) (base : B64.float)
  (sensitivity : B32.float) (sps : N) :
  make base sensitivity sps =
  {| sense := sensitivity * four;
     wc := normalized_cutoff base sps;
     g0 := base_coefficient (normalized_cutoff base sps);
     low1 := zero;
     low2 := zero |}.
Proof. reflexivity. Qed.

Lemma single_base_frequency_step (TrigD : Trig B64.float)
  (d : dynamic_smoother B32.float) (base : B64.float) (sps : N) :
  base_frequency base sps d =
  (tt,
   {| sense := sense d;
      wc := normalized_cutoff base sps;
      g0 := base_coefficient (normalized_cutoff base sps);
      low1 := low1 d;
      low2 := low2 d |}).
Proof. reflexivity. Qed.

(** At 48 kHz the narrowing maps the base frequency [2^-140] Hz to the
    cutoff 0 and [24000 - 2^-20] Hz to the cutoff 1/2; both lie strictly
    between 0 and half the sampling rate. *)
Lemma cutoff_narrowed_to_ends :
  in_range (B64.of_dyadic 1 (-140)) 48000 = true /\
  normalized_cutoff (B64.of_dyadic 1 (-140)) 48000 = zero /\
  in_range (B64.of_dyadic 25165823999 (-20)) 48000 = true /\
  normalized_cutoff (B64.of_dyadic 25165823999 (-20)) 48000 = half.
Proof. vm_compute. repeat split. Qed.

(** When the cutoff is stored as 0 and the tangent of [pi * 0] is
    computed as 0, the base coefficient is stored as 0. *)
Lemma make_at_zero_cutoff (TrigD : Trig B64.float) (base : B64.float)
  (sensitivity : B32.float) (sps : N) :
  normalized_cutoff base sps = zero ->
  std_tan (B64.mul pi (B64.of_single zero)) = S754_zero false ->
  make base sensitivity sps =
  {| sense := sensitivity * four; wc := zero; g0 := zero; low1 := zero;
     low2 := zero |}.
Proof.
  intros Hw Ht. rewrite single_make_fields. unfold base_coefficient.
  rewrite Hw, Ht. reflexivity.
Qed.

(** With a base coefficient of 0 and both registers at 0 the coefficient
    [g] is 0 and a finite sample changes nothing. *)
Lemma frozen_call (v w s : B32.float) :
  B32.is_finite v = true -> B32.is_finite s = true ->
  operator_call s {| sense := v; wc := w; g0 := zero; low1 := zero;
                     low2 := zero |} =
  (zero, {| sense := v; wc := w; g0 := zero; low1 := zero; low2 := zero |}).
Proof.
  intros Hv Hs.
  destruct v as [[]|[]| |[] mv ev]; try discriminate;
    destruct s as [[]|[]| |[] ms es]; try discriminate; reflexivity.
Qed.

Lemma frozen_g (v w : B32.float) :
  B32.is_finite v = true ->
  g {| sense := v; wc := w; g0 := zero; low1 := zero; low2 := zero |} = zero.
Proof.
  intros Hv. destruct v as [[]|[]| |[] mv ev]; try discriminate; reflexivity.
Qed.

Lemma frozen_run (v w : B32.float) (l : list B32.float) :
  B32.is_finite v = true -> forallb B32.is_finite l = true ->
  run operator_call l {| sense := v; wc := w; g0 := zero; low1 := zero;
                         low2 := zero |} =
  (repeat zero (length l),
   {| sense := v; wc := w; g0 := zero; low1 := zero; low2 := zero |}).
Proof.
  intros Hv. induction l as [|s l IH]; intros Hl; [reflexivity|].
  cbn [forallb] in Hl. apply andb_prop in Hl as [Hs Hl].
  rewrite run_cons, frozen_call by assumption.
  cbn [fst snd]. rewrite (IH Hl). reflexivity.
Qed.

End DynamicSmootherSingleFacts.

(** ** Stability of the smoother in exact arithmetic *)

Module SmootherStabilityFacts.
Import DynamicSmoother DynamicSmootherFacts SmootherStability.
Local Open Scope R_scope.

Lemma exact_base_coefficient (w : R) :
  base_coefficient w = 2 * tan (PI * w) / (1 + tan (PI * w)).
Proof. reflexivity. Qed.

Lemma tan_cutoff_pos (w : R) : 0 < w < 1 / 2 -> 0 < tan (PI * w).
Proof.
  intros [H0 H1]. pose proof PI_RGT_0 as Hpi.
  apply tan_gt_0; nra.
Qed.

(** Below half the sampling rate the base coefficient lies strictly
    between 0 and 2. *)
Lemma base_coefficient_range (w : R) :
  0 < w < 1 / 2 -> 0 < base_coefficient w < 2.
Proof.
  intros Hw. pose proof (tan_cutoff_pos Hw) as Ht.
  rewrite exact_base_coefficient.
  split.
  - apply Rdiv_lt_0_compat; lra.
  - apply (Rmult_lt_reg_r (1 + tan (PI * w))); [lra|].
    unfold Rdiv. rewrite Rmult_assoc, Rinv_l by lra. lra.
Qed.

(** It is at most 1 up to a quarter of the sampling rate, where the
    pre-warped coefficient [tan (pi wc)] reaches 1, and above 1 beyond. *)
Lemma base_coefficient_vs_one (w : R) :
  0 < w < 1 / 2 ->
  (w <= 1 / 4 -> base_coefficient w <= 1) /\
  (1 / 4 < w -> 1 < base_coefficient w).
Proof.
  intros Hw. pose proof (tan_cutoff_pos Hw) as Ht.
  pose proof PI_RGT_0 as Hpi.
  rewrite exact_base_coefficient.
  split; intros Hq.
  - assert (tan (PI * w) <= 1) as Hle.
    { destruct (Req_dec w (1 / 4)) as [->|Hne].
      - replace (PI * (1 / 4)) with (PI / 4) by lra. rewrite tan_PI4. lra.
      - rewrite <- tan_PI4. left. apply tan_increasing; nra. }
    apply (Rmult_le_reg_r (1 + tan (PI * w))); [lra|].
    unfold Rdiv. rewrite Rmult_assoc, Rinv_l by lra. lra.
  - assert (1 < tan (PI * w)) as Hlt.
    { rewrite <- tan_PI4. apply tan_increasing; nra. }
    apply (Rmult_lt_reg_r (1 + tan (PI * w))); [lra|].
    unfold Rdiv. rewrite Rmult_assoc, Rinv_l by lra. lra.
Qed.

Lemma normalized_cutoff_range (base : R) (sps : N) :
  valid_base base sps -> 0 < base / IZR (Z.of_N sps) < 1 / 2.
Proof.
  intros [H0 H1]. set (r := IZR (Z.of_N sps)) in *.
  assert (0 < r) by lra.
  split.
  - apply Rdiv_lt_0_compat; lra.
  - apply (Rmult_lt_reg_r r); [lra|].
    unfold Rdiv at 1. rewrite Rmult_assoc, Rinv_l by lra. lra.
Qed.

(** A tuned smoother's per-sample coefficient lies in (0, 1]. *)
Lemma tuned_g (d : dynamic_smoother R) : tuned d -> 0 < g d <= 1.
Proof.
  intros [Hg Hs]. rewrite exact_g.
  pose proof (Rabs_pos (low1 d - low2 d)).
  split; [|apply Rmin_r].
  apply Rmin_glb_lt; nra.
Qed.

(** Moving from [a] towards [b] by a fraction in [0, 1] stays between
    the bounds of [a] and [b]. *)
Lemma convex_within (lo hi a b k : R) :
  0 <= k <= 1 -> lo <= a <= hi -> lo <= b <= hi ->
  lo <= a + k * (b - a) <= hi.
Proof. intros. nra. Qed.

Lemma call_within (lo hi : R) (d : dynamic_smoother R) (s : R) :
  tuned d -> within lo hi d -> lo <= s <= hi ->
  within lo hi (snd (operator_call s d)).
Proof.
  intros Ht [H1 H2] Hs. pose proof (tuned_g Ht) as Hg.
  rewrite dynamic_smoother_step. unfold within. cbn [snd low1 low2].
  exact_arith.
  assert (lo <= low1 d + g d * (s - low1 d) <= hi) as H1'
    by (apply convex_within; lra).
  split; [exact H1'|].
  apply convex_within; lra.
Qed.

Lemma call_tuned (d : dynamic_smoother R) (s : R) :
  tuned d -> tuned (snd (operator_call s d)).
Proof. intros Ht. rewrite dynamic_smoother_step. exact Ht. Qed.

Lemma stable_tuned (B : R) (d : dynamic_smoother R) :
  stable B d -> tuned d.
Proof.
  intros (Hw & Hg & Hsn & _). split; [|exact Hsn].
  rewrite Hg. apply base_coefficient_range, Hw.
Qed.

Lemma reachable_stable (B : R) (d : dynamic_smoother R) :
  0 <= B -> reachable B d -> stable B d.
Proof.
  intros HB Hr.
  induction Hr as [base sensitivity sps Hb Hs|d s Hr IH Hs|d base sps Hr IH Hb].
  - pose proof (normalized_cutoff_range Hb) as Hw.
    unfold stable, within, make. cbn. exact_arith.
    repeat split; try lra.
  - pose proof (stable_tuned IH) as Ht.
    destruct IH as (Hw & Hg & Hsn & Hin).
    apply Rabs_le_between in Hs.
    pose proof (call_within Ht Hin Hs) as Hin'.
    rewrite dynamic_smoother_step in *.
    repeat split; try tauto; apply Hin'.
  - destruct IH as (Hw & Hg & Hsn & Hin).
    pose proof (normalized_cutoff_range Hb) as Hw'.
    rewrite base_frequency_step.
    repeat split; try tauto; try apply Hw'; apply Hin.
Qed.

(** C8, as amended.  In exact arithmetic, every state that is reachable
    from a construction with a base frequency strictly between 0 and half
    the sampling rate and a non-negative sensitivity, through samples of
    magnitude at most [B] and retunings to such base frequencies, has a
    normalized cutoff strictly between 0 and 1/2 and a base coefficient
    [g0] strictly between 0 and 2, which is at most 1 exactly when the
    cutoff is at most 1/4; its per-sample coefficient [g] lies in
    (0, 1], and both registers have magnitude at most [B].  The compiled
    code does not keep these bounds: it narrows the quotient
    [double(base) / sps] to [float], and at 48 kHz there are base
    frequencies strictly inside the range whose cutoff is stored as 0,
    and as 1/2.  When the cutoff is stored as 0 and the tangent of
    [pi * 0] is computed as 0, the constructor stores the base
    coefficient 0, and with a finite scaled sensitivity such a smoother
    has the coefficient [g = 0]: it returns 0 for every finite sample
    and its state never changes. *)
Theorem smoother_reachable_bounded :
  (forall (B : R) (d : dynamic_smoother R),
      0 <= B -> reachable B d ->
      0 < wc d < 1 / 2 /\
      0 < g0 d < 2 /\
      (wc d <= 1 / 4 /\ g0 d <= 1 \/ 1 / 4 < wc d /\ 1 < g0 d) /\
      0 < g d <= 1 /\
      Rabs (low1 d) <= B /\ Rabs (low2 d) <= B) /\
  ((exists base : B64.float,
       DynamicSmootherSingle.in_range base 48000 = true /\
       DynamicSmootherSingle.normalized_cutoff base 48000 = zero) /\
   (exists base : B64.float,
       DynamicSmootherSingle.in_range base 48000 = true /\
       DynamicSmootherSingle.normalized_cutoff base 48000 = half)) /\
  (forall (TrigD : Trig B64.float) (base : B64.float)
          (sensitivity : B32.float) (sps : N) (l : list B32.float),
      DynamicSmootherSingle.normalized_cutoff base sps = zero ->
      std_tan (B64.mul pi (B64.of_single zero)) = S754_zero false ->
      B32.is_finite (sensitivity * four)%S = true ->
      forallb B32.is_finite l = true ->
      let d := DynamicSmootherSingle.make base sensitivity sps in
      g0 d = zero /\
      g d = zero /\
      run operator_call l d = (repeat zero (length l), d)).
Proof.
  split; [|split].
  - intros B d HB Hr. pose proof (reachable_stable HB Hr) as Hst.
    pose proof (stable_tuned Hst) as Ht.
    destruct Hst as (Hw & Hg & Hsn & [H1 H2]).
    pose proof (base_coefficient_range Hw) as Hrange.
    pose proof (base_coefficient_vs_one Hw) as [Hle Hgt].
    rewrite Hg.
    split; [exact Hw|]. split; [exact Hrange|]. split.
    + destruct (Rle_lt_dec (wc d) (1 / 4)) as [Hq|Hq]; [left|right]; auto.
    + split; [apply (tuned_g Ht)|]. split; apply Rabs_le; assumption.
  - destruct DynamicSmootherSingleFacts.cutoff_narrowed_to_ends
      as (R0 & C0 & R1 & C1).
    split.
    + exists (B64.of_dyadic 1 (-140)). split; assumption.
    + exists (B64.of_dyadic 25165823999 (-20)). split; assumption.
  - intros TrigD base sensitivity sps l Hw Ht Hs Hl. cbv zeta.
    rewrite (@DynamicSmootherSingleFacts.make_at_zero_cutoff
               TrigD base sensitivity sps Hw Ht).
    split; [reflexivity|]. split.
    + apply DynamicSmootherSingleFacts.frozen_g, Hs.
    + apply DynamicSmootherSingleFacts.frozen_run; assumption.
Qed.

Lemma smoother_reachable_bounded_witness :
  (let d := snd (operator_call (T := R) 1
                   (snd (base_frequency 12000 48000
                           (make 1000 (1 / 2) 48000)))) in
   0 < wc d < 1 / 2 /\
   0 < g0 d < 2 /\
   (wc d <= 1 / 4 /\ g0 d <= 1 \/ 1 / 4 < wc d /\ 1 < g0 d) /\
   0 < g d <= 1 /\
   Rabs (low1 d) <= 1 /\ Rabs (low2 d) <= 1) /\
  (let d := DynamicSmootherSingle.make (TrigD := SeriesTan.instance)
              (B64.of_dyadic 1 (-140)) half 48000 in
   g0 d = zero /\
   g d = zero /\
   run operator_call [one; SFopp one] d = (repeat zero 2, d)).
Proof.
  split.
  - apply (proj1 smoother_reachable_bounded 1).
    + lra.
    + apply reach_call.
      * apply reach_retune.
        -- apply reach_make; [unfold valid_base; simpl; lra | lra].
        -- unfold valid_base; simpl; lra.
      * rewrite Rabs_R1. lra.
  - apply (proj2 (proj2 smoother_reachable_bounded) SeriesTan.instance
             (B64.of_dyadic 1 (-140)) half 48000%N [one; SFopp one]);
      vm_compute; reflexivity.
Defined.

(** C8 fails as stated: at a base frequency of 16 kHz and a sampling rate
    of 48 kHz, below half the sampling rate, the normalized cutoff is one
    third, [tan (pi / 3)] is the square root of 3, and the base
    coefficient [2 sqrt 3 / (1 + sqrt 3)], about 1.27, exceeds 1. *)
Lemma base_coefficient_exceeds_one :
  valid_base 16000 48000 /\ 1 < g0 (make 16000 (1 / 2) 48000).
Proof.
  split.
  - unfold valid_base; simpl; lra.
  - change (g0 (make 16000 (1 / 2) 48000))
      with (base_coefficient (16000 / IZR (Z.of_N 48000))).
    apply base_coefficient_vs_one; simpl; lra.
Qed.

Lemma sqrt3_bounds : 1.73 < sqrt 3 < 1.74.
Proof.
  pose proof (sqrt_pos 3). pose proof (sqrt_sqrt 3 ltac:(lra)).
  split; nra.
Qed.

(** At a sixth of the sampling rate the base coefficient is
    [sqrt 3 - 1]. *)
Lemma base_coefficient_sixth : base_coefficient (1 / 6) = sqrt 3 - 1.
Proof.
  rewrite exact_base_coefficient.
  replace (PI * (1 / 6)) with (PI / 6) by lra. rewrite tan_PI6.
  pose proof sqrt3_bounds. pose proof (sqrt_sqrt 3 ltac:(lra)).
  field_simplify; try lra.
  apply (Rmult_eq_reg_r (sqrt 3 + 1)); [|lra].
  unfold Rdiv. rewrite Rmult_assoc, Rinv_l by lra. nra.
Qed.

(** The sensitivity must not be negative: with sensitivity -100 at 8 kHz
    and 48 kHz, two samples of value 1 drive the first register
    below -1. *)
Lemma negative_sensitivity_escapes :
  let d := snd (run operator_call [1; 1] (make 8000 (-100) 48000)) in
  valid_base 8000 48000 /\ low1 d < -1.
Proof.
  cbv zeta. split; [unfold valid_base; simpl; lra|].
  rewrite !run_cons, run_nil. cbn [snd fst].
  rewrite !dynamic_smoother_step. cbn [snd low1 low2 g0 sense wc].
  rewrite !exact_g.
  unfold make. cbn [set_g0 g0 sense low1 low2 wc].
  exact_arith.
  rewrite <- !(exact_base_coefficient (8000 / IZR (Z.of_N 48000))).
  replace (8000 / IZR (Z.of_N 48000)) with (1 / 6) by (simpl; lra).
  rewrite base_coefficient_sixth.
  pose proof sqrt3_bounds as Hs.
  pose proof (sqrt_sqrt 3 ltac:(lra)) as Hr2. set (r := sqrt 3) in *.
  replace (0 - 0) with 0 by lra. rewrite Rabs_R0.
  rewrite (Rmin_left (r - 1 + -100 * 4 * 0) 1) by lra.
  replace (r - 1 + -100 * 4 * 0) with (r - 1) by lra.
  replace (0 + (r - 1) * (1 - 0)) with (r - 1) by lra.
  replace (0 + (r - 1) * (r - 1 - 0)) with ((r - 1) * (r - 1)) by lra.
  rewrite (Rabs_right (r - 1 - (r - 1) * (r - 1))) by nra.
  rewrite Rmin_left by nra.
  replace (r - 1 + (r - 1 + -100 * 4 * (r - 1 - (r - 1) * (r - 1)))
                   * (1 - (r - 1)))
    with ((r * r - 3) * (-400 * r + 1999) - 4396 * r + 7594) by ring.
  rewrite Hr2. lra.
Qed.

End SmootherStabilityFacts.

(** ** dynamic_lowpass *)

Module DynamicLowpassFacts.
Import DynamicLowpass.
Local Open Scope sample_scope.

Lemma dynamic_lowpass_step {T : Type} {SampleT : Sample T}
  (d : dynamic_lowpass T) (s a : T) :
  operator_call s a d =
  (_y d + a * (s - _y d), {| _y := _y d + a * (s - _y d) |}).
Proof. reflexivity. Qed.

(** In exact arithmetic a coefficient of 1 returns the sample and a
    coefficient of 0 the prior state. *)
Lemma exact_lowpass_unit (d : dynamic_lowpass R) (s : R) :
  fst (operator_call s one d) = s.
Proof. rewrite dynamic_lowpass_step. cbn. lra. Qed.

Lemma exact_lowpass_zero (d : dynamic_lowpass R) (s : R) :
  fst (operator_call s zero d) = _y d.
Proof. rewrite dynamic_lowpass_step. cbn. lra. Qed.

(** C5 fails as stated, in single precision: from the state 1.0, the
    sample [2^-100] and the coefficient 1.0, the difference
    [2^-100 - 1.0] rounds to [-1.0], and the call returns 0 instead of
    the sample.  (The difference rounds to -1.0 in double and in
    extended precision as well.) *)
Lemma lowpass_unit_coefficient_rounds :
  let s := B32.of_dyadic 1 (-100) in
  let r := fst (operator_call s one {| _y := one |}) in
  B32.valid s = true /\ r = S754_zero false /\ B32.eqb r s = false.
Proof. repeat split; vm_compute; reflexivity. Qed.

(** The same with everyday values: from the state 1.0 and the sample
    nearest to 0.1, [13421773 * 2^-27], the call with coefficient 1.0
    returns [13421776 * 2^-27]. *)
Example lowpass_unit_coefficient_tenth :
  let s := (one / of_int 10)%S in
  s = S754_finite false 13421773 (-27) /\
  fst (operator_call s one {| _y := one |}) =
  S754_finite false 13421776 (-27).
Proof. split; vm_compute; reflexivity. Qed.

(** With coefficient 0 the prior state is lost when the difference
    overflows: from the largest finite state and its opposite as the
    sample, [0 * (s - y)] is [0 * -infinity], not a number. *)
Example lowpass_zero_coefficient_overflow :
  let y := SFmax_float B32.prec B32.emax in
  fst (operator_call (SFopp y) zero {| _y := y |}) = S754_nan.
Proof. vm_compute; reflexivity. Qed.

Lemma b32_compare_refl (a : B32.float) :
  B32.is_nan a = false -> SFcompare a a = Some Eq.
Proof.
  destruct a as [s|s| |s m e]; simpl; try discriminate; intros _;
    try reflexivity.
  - destruct s; reflexivity.
  - rewrite Z.compare_refl, Pos.compare_cont_refl. destruct s; reflexivity.
Qed.

(** In single precision a coefficient of 0 returns the prior state,
    possibly with the sign of a zero changed, whenever the difference
    [s - y] is finite. *)
Lemma b32_lowpass_zero (d : dynamic_lowpass B32.float) (s : B32.float) :
  B32.is_finite (s - _y d) = true ->
  B32.eqb (fst (operator_call s zero d)) (_y d) = true.
Proof.
  rewrite dynamic_lowpass_step. cbn [fst].
  destruct d as [y]. cbn [_y]. intros Hfin.
  assert (B32.is_nan y = false) as Hy.
  { destruct y; try reflexivity. destruct s; discriminate. }
  destruct (s - y) as [sd|sd| |sd md ed] eqn:Hd; try discriminate;
    rewrite b32_zero; cbn.
  - destruct y as [sy|sy| |sy my ey]; try discriminate;
      try (destruct sy, sd; reflexivity).
    unfold B32.eqb, SFeqb. now rewrite b32_compare_refl.
  - destruct y as [sy|sy| |sy my ey]; try discriminate;
      try (destruct sy, sd; reflexivity).
    unfold B32.eqb, SFeqb. now rewrite b32_compare_refl.
Qed.

Lemma b32_sub_zero (a : B32.float) : (a - zero)%S = a.
Proof. destruct a as [[|]|[|]| |[|] m e]; reflexivity. Qed.

(** In single precision a coefficient of 1 returns the sample when the
    state is zero, as after construction: then the difference is the
    sample itself.  A sample [-0] comes back as [+0]. *)
Lemma b32_lowpass_unit_from_zero (s : B32.float) :
  B32.valid s = true -> B32.is_nan s = false ->
  B32.eqb (fst (operator_call s one make)) s = true.
Proof.
  intros Hv Hn. rewrite dynamic_lowpass_step. cbn [fst make _y].
  rewrite b32_sub_zero, (B32Rounding.mul_one s Hv), b32_zero.
  destruct s as [[|]|[|]| |sg m e]; try reflexivity; try discriminate.
  cbn [sadd binary32 SFadd]. unfold B32.eqb, SFeqb.
  now rewrite b32_compare_refl.
Qed.

(** C5, as amended: the call sets the state to
    [state + coefficient * (sample - state)], each operation in the
    sample arithmetic, and returns the new state.  In exact arithmetic a
    coefficient of 1 returns exactly the sample and a coefficient of 0
    the prior state.  In single precision a coefficient of 0 returns a
    value equal to the prior state whenever [sample - state] is finite,
    and a coefficient of 1 returns a value equal to the sample when the
    state is zero. *)
Theorem lowpass_update :
  (forall (T : Type) (SampleT : Sample T) (d : dynamic_lowpass T) (s a : T),
      fst (operator_call s a d) = _y d + a * (s - _y d) /\
      _y (snd (operator_call s a d)) = fst (operator_call s a d)) /\
  (forall (d : dynamic_lowpass R) (s : R),
      fst (operator_call s one d) = s /\
      fst (operator_call s zero d) = _y d) /\
  (forall (d : dynamic_lowpass B32.float) (s : B32.float),
      B32.is_finite (s - _y d) = true ->
      B32.eqb (fst (operator_call s zero d)) (_y d) = true) /\
  (forall s : B32.float,
      B32.valid s = true -> B32.is_nan s = false ->
      B32.eqb (fst (operator_call s one make)) s = true).
Proof.
  split; [|split; [|split]].
  - intros T SampleT d s a. rewrite dynamic_lowpass_step. split; reflexivity.
  - intros d s. split; [apply exact_lowpass_unit|apply exact_lowpass_zero].
  - apply b32_lowpass_zero.
  - apply b32_lowpass_unit_from_zero.
Qed.

Lemma lowpass_update_witness :
  B32.eqb (fst (operator_call (B32.of_dyadic 1 (-26)) zero {| _y := one |}))
    one = true /\
  B32.eqb (fst (operator_call (B32.of_dyadic 1 (-26)) one make))
    (B32.of_dyadic 1 (-26)) = true.
Proof.
  split.
  - apply (proj1 (proj2 (proj2 lowpass_update))
             {| _y := one |} (B32.of_dyadic 1 (-26))).
    vm_compute. reflexivity.
  - apply (proj2 (proj2 (proj2 lowpass_update)) (B32.of_dyadic 1 (-26)));
      vm_compute; reflexivity.
Defined.

End DynamicLowpassFacts.

(** ** zero_cross *)

Module ZeroCrossFacts.
Import ZeroCross.
Local Open Scope sample_scope.

Lemma zero_cross_step {T : Type} {SampleT : Sample T} {SchmittT : Schmitt T}
  (z : zero_cross T) (s : T) :
  operator_call s z =
  (of_bool (fst (schmitt_trigger_call s zero (_cmp z))),
   {| _cmp := snd (schmitt_trigger_call s zero (_cmp z));
      _state := _state z |}).
Proof.
  unfold operator_call, bind, zoom, ret, set_cmp.
  destruct (schmitt_trigger_call s zero (_cmp z)) as [b c]. reflexivity.
Qed.

Lemma zero_cross_state_kept {T : Type} {SampleT : Sample T}
  {SchmittT : Schmitt T} (z : zero_cross T) (s : T) :
  _state (snd (operator_call s z)) = _state z.
Proof. rewrite zero_cross_step. reflexivity. Qed.

(** C10: the boolean member [_state] is never written by the per-sample
    call: after any sequence of samples it still has its initial value
    [false]; the result of a call and the next comparator state are
    those of the comparator on the sample and the reference 0, so they
    depend on the comparator's state and the sample only, whatever
    [_state] holds. *)
Theorem zero_cross_shadow_state_unused :
  forall (T : Type) (SampleT : Sample T) (SchmittT : Schmitt T),
    (forall (hysteresis : T) (samples : list T),
        _state (snd (run operator_call samples (make hysteresis))) = false) /\
    (forall (z : zero_cross T) (s : T),
        _state (snd (operator_call s z)) = _state z /\
        fst (operator_call s z) =
          of_bool (fst (schmitt_trigger_call s zero (_cmp z))) /\
        _cmp (snd (operator_call s z)) =
          snd (schmitt_trigger_call s zero (_cmp z))) /\
    (forall (c : schmitt_trigger) (b1 b2 : bool) (s : T),
        let z1 := {| _cmp := c; _state := b1 |} in
        let z2 := {| _cmp := c; _state := b2 |} in
        fst (operator_call s z1) = fst (operator_call s z2) /\
        _cmp (snd (operator_call s z1)) = _cmp (snd (operator_call s z2))).
Proof.
  intros T SampleT SchmittT. split; [|split].
  - intros hysteresis samples.
    apply (run_invariant operator_call (fun z => _state z = false)).
    + intros s z Hz. rewrite zero_cross_state_kept. exact Hz.
    + reflexivity.
  - intros z s. rewrite zero_cross_step. repeat split.
  - intros c b1 b2 s. cbv zeta. rewrite !zero_cross_step. split; reflexivity.
Qed.

End ZeroCrossFacts.

(** ** onset_detector *)

Module OnsetDetectorFacts.
Import OnsetDetector.
Local Open Scope sample_scope.

Lemma onset_detector_step {T : Type} {SampleT : Sample T}
  {SchmittT : Schmitt T} {EnvelopeT : Envelope T}
  (o : onset_detector T) (s : T) :
  operator_call s o =
  if above o s
  then (std_max (_val o) (magnitude s),
        advanced o s (std_max (_val o) (magnitude s)))
  else (zero, advanced o s zero).
Proof.
  unfold operator_call, above, advanced, trailing, envelope, magnitude.
  unfold bind, zoom, get, modify, ret.
  destruct (peak_envelope_follower_call (sabs s) (_env o)) as [env e'].
  cbn.
  destruct (one_pole_lowpass_call env (_lp o)) as [lp l'].
  cbn.
  destruct (schmitt_trigger_call (env * _sensitivity o) lp (_comp o))
    as [c c'].
  cbn.
  destruct c; reflexivity.
Qed.

(** C3: each call takes the magnitude of the sample, feeds it through
    the envelope follower and the envelope through the low-pass, and
    asks the comparator whether the attenuated envelope is above the
    trailing value.  If so, the latch becomes the maximum of the previous
    latch and the magnitude and the call returns the latch; otherwise
    the latch becomes exactly 0 and the call returns 0 - on the very
    sample the comparator reports the release.  The three collaborators
    advance in both cases. *)
Theorem onset_detector_latch :
  forall (T : Type) (SampleT : Sample T) (SchmittT : Schmitt T)
         (EnvelopeT : Envelope T) (o : onset_detector T) (s : T),
    let abs_s := sabs s in
    let '(env, e') := peak_envelope_follower_call abs_s (_env o) in
    let '(lp, l') := one_pole_lowpass_call env (_lp o) in
    let '(c, c') :=
      schmitt_trigger_call (env * _sensitivity o) lp (_comp o) in
    let o' := snd (operator_call s o) in
    (if c
     then _val o' = std_max (_val o) abs_s /\
          fst (operator_call s o) = _val o'
     else _val o' = zero /\ fst (operator_call s o) = zero) /\
    _env o' = e' /\ _lp o' = l' /\ _comp o' = c' /\
    _sensitivity o' = _sensitivity o.
Proof.
  intros T SampleT SchmittT EnvelopeT o s. cbv zeta.
  rewrite onset_detector_step.
  unfold above, advanced, trailing, envelope, magnitude.
  destruct (peak_envelope_follower_call (sabs s) (_env o)) as [env e'].
  cbn [fst snd].
  destruct (one_pole_lowpass_call env (_lp o)) as [lp l'].
  cbn [fst snd].
  destruct (schmitt_trigger_call (env * _sensitivity o) lp (_comp o))
    as [c c'].
  cbn [fst snd].
  destruct c; repeat split.
Qed.

End OnsetDetectorFacts.

(** ** The read accessors *)

Module AccessorFacts.
Local Open Scope sample_scope.

(** C9: the no-argument accessors of the dynamic low-pass and of the
    onset detector return the stored value, the low-pass state and the
    latch, and leave the whole object as it was; after a call of the
    onset detector the accessor returns the value that call returned. *)
Theorem read_accessors_pure :
  forall (T : Type) (SampleT : Sample T) (SchmittT : Schmitt T)
         (EnvelopeT : Envelope T),
    (forall d : DynamicLowpass.dynamic_lowpass T,
        DynamicLowpass.operator_call_const d = (DynamicLowpass._y d, d)) /\
    (forall (d : DynamicLowpass.dynamic_lowpass T) (s a : T),
        fst (DynamicLowpass.operator_call_const
               (snd (DynamicLowpass.operator_call s a d))) =
        fst (DynamicLowpass.operator_call s a d)) /\
    (forall o : OnsetDetector.onset_detector T,
        OnsetDetector.operator_call_const o = (OnsetDetector._val o, o)) /\
    (forall (o : OnsetDetector.onset_detector T) (s : T),
        fst (OnsetDetector.operator_call_const
               (snd (OnsetDetector.operator_call s o))) =
        fst (OnsetDetector.operator_call s o)).
Proof.
  intros T SampleT SchmittT EnvelopeT. repeat split.
  intros o s. rewrite OnsetDetectorFacts.onset_detector_step.
  destruct (OnsetDetector.above o s); reflexivity.
Qed.

End AccessorFacts.

(** ** The processors on concrete samples *)

Module Examples.
Local Open Scope Z_scope.
Local Open Scope sample_scope.

(** The smoother's coefficient in single precision: a bandpass estimate
    of [2^100] and an infinite one are both clamped to 1; a register that
    is not a number makes the coefficient not a number, which compares
    neither above nor below 1. *)
Example smoother_coefficient_clamped :
  let d (l1 l2 : B32.float) :=
    {| DynamicSmoother.sense := two;
       DynamicSmoother.wc := B32.of_dyadic 1 (-5);
       DynamicSmoother.g0 := B32.of_dyadic 1 (-3);
       DynamicSmoother.low1 := l1;
       DynamicSmoother.low2 := l2 |} in
  DynamicSmoother.g (d zero zero) = B32.of_dyadic 1 (-3) /\
  DynamicSmoother.g (d (B32.of_dyadic 1 100) zero) = one /\
  DynamicSmoother.g (d (S754_infinity false) zero) = one /\
  DynamicSmoother.g (d S754_nan zero) = S754_nan.
Proof. repeat split; vm_compute; reflexivity. Qed.

(** Registers that are not numbers arise from finite samples: the two
    largest finite values of opposite signs overflow the difference
    [s - low1]. *)
Example smoother_registers_overflow :
  let big := SFmax_float B32.prec B32.emax in
  let d := {| DynamicSmoother.sense := two;
              DynamicSmoother.wc := B32.of_dyadic 1 (-2);
              DynamicSmoother.g0 := one;
              DynamicSmoother.low1 := zero;
              DynamicSmoother.low2 := zero |} in
  let d' := snd (run DynamicSmoother.operator_call [big; SFopp big] d) in
  DynamicSmoother.g d' = S754_nan.
Proof. vm_compute. reflexivity. Qed.

(** The zero-crossing detector on the comparator of the interface
    description, with a hysteresis of one half: the output flips once
    the sample has passed a quarter beyond zero on the other side. *)
Example zero_cross_run :
  let q (n : Z) : B32.float := B32.of_dyadic n (-3) in
  let r :=
    run (ZeroCross.operator_call
           (SchmittT := SpecSchmitt.instance B32.float))
      [q 8; q 1; q (-1); q (-8); q (-1); q 8]
      (ZeroCross.make (SchmittT := SpecSchmitt.instance B32.float) (q 4)) in
  fst r = [one; one; one; zero; zero; one] /\
  ZeroCross._state (snd r) = false.
Proof. split; vm_compute; reflexivity. Qed.

(** The peak detector compares the sample with the attenuated
    envelope. *)
Example peak_run :
  let q (n : Z) : B32.float := B32.of_dyadic n (-3) in
  fst (run (fun p => Peak.operator_call
                       (SchmittT := SpecSchmitt.instance B32.float)
                       (fst p) (snd p))
         [(q 8, q 8); (q 6, q 8); (q 1, q 8); (q 8, q 8)]
         (Peak.make (SchmittT := SpecSchmitt.instance B32.float)
            (q 6) (q 2))) =
  [true; true; false; true].
Proof. vm_compute. reflexivity. Qed.

(** The onset detector on the primitives of the interface description,
    with a smoothing coefficient of 1/4, a decay factor of 3/4, a
    comparator hysteresis of [2^-6] and a sensitivity of 1/2, fed two
    silent samples, three samples of magnitude 1, a peak of height 2
    and a sample of height 1.  The step trips the comparator at once
    and the latch holds its magnitude 1; on the fifth sample the
    trailing value has caught up, the comparator releases, and the
    result is exactly 0; the peak trips it again, and the last sample
    releases it: the accessor then reads the latch 0. *)
Example onset_detector_run :
  let q (n : Z) : B32.float := B32.of_dyadic n (-2) in
  let schmitt := SpecSchmitt.instance B32.float in
  let envelope :=
    SpecEnvelope.instance (fun _ _ => q 1) (fun _ _ => q 3)
      (B32.of_dyadic 1 (-6)) in
  let r :=
    run (OnsetDetector.operator_call
           (SchmittT := schmitt) (EnvelopeT := envelope))
      [zero; zero; q 4; q (-4); q 4; q 8; q 4]
      (OnsetDetector.make
         (SchmittT := schmitt) (EnvelopeT := envelope) (q 2) (q 1) 48000) in
  fst r = [zero; zero; q 4; q 4; zero; q 8; zero] /\
  fst (OnsetDetector.operator_call_const (snd r)) = zero.
Proof. split; vm_compute; reflexivity. Qed.

End Examples.

(** * Further properties *)

(** ** The downsampler on streams *)

Module DownsamplerStreamFacts.
Import FastDownsample FastDownsampleFacts DownsamplerStreams.
Local Open Scope sample_scope.

Lemma carry_after_call {T : Type} {SampleT : Sample T}
  (l : list (T * T)) (p : T * T) (d : fast_downsample T) :
  snd (run operator_call_pair (l ++ [p]) d) = {| x := snd p / four |}.
Proof. rewrite run_app. cbn [snd]. rewrite run_cons. reflexivity. Qed.

(** X1: the downsampler remembers one sample only.  Whatever was fed
    before, the call on a pair [q] that follows a pair [p] returns the
    three taps [snd p / 4 + fst q / 2 + snd q / 4], and leaves the carry
    [snd q / 4]. *)
Theorem downsample_window :
  forall (T : Type) (SampleT : Sample T) (l : list (T * T)) (p q : T * T)
         (d : fast_downsample T),
    fst (run operator_call_pair (l ++ [p; q]) d) =
    fst (run operator_call_pair (l ++ [p]) d) ++
    [snd p / four + fst q / two + snd q / four] /\
    snd (run operator_call_pair (l ++ [p; q]) d) = {| x := snd q / four |}.
Proof.
  intros T SampleT l p q d.
  change (l ++ [p; q]) with (l ++ [p] ++ [q]). rewrite app_assoc.
  split.
  - rewrite (run_app operator_call_pair (l ++ [p]) [q]). cbn [fst].
    rewrite carry_after_call. reflexivity.
  - apply carry_after_call.
Qed.

Lemma exact_call_within (lo hi : R) (d : fast_downsample R) (p : R * R) :
  (lo / 4 <= x d <= hi / 4)%R -> pair_within lo hi p ->
  (lo <= fst (operator_call_pair p d) <= hi)%R /\
  (lo / 4 <= x (snd (operator_call_pair p d)) <= hi / 4)%R.
Proof.
  intros Hx [H1 H2]. unfold operator_call_pair.
  rewrite fast_downsample_step. cbn [fst snd x]. exact_arith. lra.
Qed.

(** X2: in exact arithmetic the downsampler never overshoots.  When
    the carry is a quarter of a value between [lo] and [hi], as after
    any call on such samples, and all samples lie between [lo] and
    [hi], so does every output, and the carry stays such a quarter. *)
Theorem downsample_no_overshoot (lo hi : R) (l : list (R * R))
  (d : fast_downsample R) :
  (lo / 4 <= x d <= hi / 4)%R -> Forall (pair_within lo hi) l ->
  Forall (fun o => lo <= o <= hi)%R (fst (run operator_call_pair l d)) /\
  (lo / 4 <= x (snd (run operator_call_pair l d)) <= hi / 4)%R.
Proof.
  intros Hx Hl. revert d Hx.
  induction Hl as [|p l Hp Hl IH]; intros d Hx.
  - split; [constructor|exact Hx].
  - rewrite run_cons. cbn [fst snd].
    destruct (exact_call_within d Hx Hp) as [Ho Hx'].
    destruct (IH _ Hx') as [Hos Hfin].
    split; [constructor; assumption|exact Hfin].
Qed.

Lemma downsample_no_overshoot_witness :
  let l := [(1, -1); (1 / 2, 1)]%R in
  Forall (fun o => -1 <= o <= 1)%R (fst (run operator_call_pair l make)) /\
  (-1 / 4 <= x (snd (run operator_call_pair l make)) <= 1 / 4)%R.
Proof.
  apply (@downsample_no_overshoot (-1) 1).
  - cbn. lra.
  - repeat constructor; cbn; lra.
Defined.

Lemma uint16_call_exact (d : fast_downsample Z) (p : Z * Z) :
  (0 <= x d <= 16383)%Z -> u16_pair p ->
  (fst (operator_call_pair p d) = x d + fst p / 2 + snd p / 4 /\
   0 <= fst (operator_call_pair p d) <= 65533 /\
   x (snd (operator_call_pair p d)) = snd p / 4 /\
   0 <= x (snd (operator_call_pair p d)) <= 16383)%Z.
Proof.
  unfold u16_pair, U16.modulus. intros Hx [H1 H2].
  unfold operator_call_pair. rewrite fast_downsample_step.
  cbn [fst snd x]. cbn. unfold U16.wrap, U16.modulus.
  change (4 mod 65536)%Z with 4%Z. change (2 mod 65536)%Z with 2%Z.
  rewrite !Z.quot_div_nonneg by lia.
  assert (0 <= fst p / 2 <= 32767)%Z by (Z.div_mod_to_equations; lia).
  assert (0 <= snd p / 4 <= 16383)%Z by (Z.div_mod_to_equations; lia).
  rewrite (Z.mod_small (fst p / 2)) by lia.
  rewrite (Z.mod_small (snd p / 4)) by lia.
  rewrite (Z.mod_small (x d + fst p / 2)) by lia.
  rewrite (Z.mod_small (x d + fst p / 2 + snd p / 4)) by lia.
  lia.
Qed.

(** X3: on unsigned 16-bit samples the downsampler never wraps around.
    A carry of at most 16383, which is what the initial carry 0 and
    every call leave, and samples in the 16-bit range give the integer
    [x + s1 / 2 + s2 / 4] itself, at most 65533, on every call. *)
Theorem uint16_never_wraps (l : list (Z * Z)) (d : fast_downsample Z) :
  (0 <= x d <= 16383)%Z -> Forall u16_pair l ->
  Forall (fun o => 0 <= o <= 65533)%Z (fst (run operator_call_pair l d)) /\
  (0 <= x (snd (run operator_call_pair l d)) <= 16383)%Z /\
  (forall p : Z * Z, u16_pair p ->
     fst (operator_call_pair p (snd (run operator_call_pair l d))) =
     (x (snd (run operator_call_pair l d)) + fst p / 2 + snd p / 4)%Z).
Proof.
  intros Hx Hl.
  assert (Forall (fun o => 0 <= o <= 65533)%Z
            (fst (run operator_call_pair l d)) /\
          (0 <= x (snd (run operator_call_pair l d)) <= 16383)%Z) as H.
  { revert d Hx. induction Hl as [|p l Hp Hl IH]; intros d Hx.
    - split; [constructor|exact Hx].
    - rewrite run_cons. cbn [fst snd].
      destruct (uint16_call_exact d Hx Hp) as (_ & Ho & _ & Hx').
      destruct (IH _ Hx') as [Hos Hfin].
      split; [constructor; assumption|exact Hfin]. }
  destruct H as [Hout Hfin]. split; [exact Hout|]. split; [exact Hfin|].
  intros p Hp. apply (uint16_call_exact _ Hfin Hp).
Qed.

Lemma uint16_never_wraps_witness :
  let l := [(65535, 65535); (65535, 1)]%Z in
  Forall (fun o => 0 <= o <= 65533)%Z
    (fst (run (S := fast_downsample Z) operator_call_pair l make)) /\
  (0 <= x (snd (run (S := fast_downsample Z) operator_call_pair l make))
   <= 16383)%Z /\
  (forall p : Z * Z, u16_pair p ->
     fst (operator_call_pair p
            (snd (run (S := fast_downsample Z) operator_call_pair l make))) =
     (x (snd (run (S := fast_downsample Z) operator_call_pair l make))
      + fst p / 2 + snd p / 4)%Z).
Proof.
  apply uint16_never_wraps.
  - cbn. lia.
  - repeat constructor; cbn; unfold U16.modulus; lia.
Defined.

(** Feeding one pair repeatedly gives a constant output from the second
    call on. *)
Lemma repeated_pair_settles {T : Type} {SampleT : Sample T} (a b : T)
  (d : fast_downsample T) (n : nat) :
  run operator_call_pair (repeat (a, b) (S n)) d =
  (x d + a / two + b / four :: repeat (b / four + a / two + b / four) n,
   {| x := b / four |}).
Proof.
  cbn [repeat]. rewrite run_cons.
  change (operator_call_pair (a, b) d)
    with (x d + a / two + b / four, {| x := b / four |}).
  cbn [fst snd].
  assert (run operator_call_pair (repeat (a, b) n) {| x := b / four |} =
          (repeat (b / four + a / two + b / four) n, {| x := b / four |}))
    as Hrun.
  { induction n as [|n IH]; [reflexivity|].
    cbn [repeat]. rewrite run_cons.
    change (operator_call_pair (a, b) {| x := b / four |})
      with (b / four + a / two + b / four, {| x := b / four |}).
    cbn [fst snd]. rewrite IH. reflexivity. }
  rewrite Hrun. reflexivity.
Qed.

Lemma exact_alternating_taps (c : R) :
  ((- c)%R / four + c / two + (- c)%R / four)%S = 0%R.
Proof. cbn. lra. Qed.

Lemma add_opposite (s : bool) (m : positive) (e : Z) :
  SFadd B32.prec B32.emax (S754_finite s m e) (S754_finite (negb s) m e) =
  S754_zero false.
Proof.
  unfold SFadd. rewrite Z.min_id. unfold shl_align. rewrite Z.sub_diag.
  cbn [fst]. destruct s; cbn [negb cond_Zopp]; cbn [Z.opp];
    rewrite ?Z.add_opp_diag_l, ?Z.add_opp_diag_r; reflexivity.
Qed.

Lemma add_half_minus_quarter (s : bool) (m : positive) (e : Z) :
  Zpos (digits2_pos m) = 24%Z -> (-147 <= e <= 104)%Z ->
  SFadd B32.prec B32.emax (S754_finite (negb s) m (e - 2))
    (S754_finite s m (e - 1)) = S754_finite s m (e - 2).
Proof.
  intros Hd He. unfold SFadd. rewrite Z.min_l by lia.
  unfold shl_align. rewrite Z.sub_diag.
  replace (e - 2 - (e - 1))%Z with (-1)%Z by lia. cbn [fst Pos.iter].
  assert (binary_normalize B32.prec B32.emax
            (cond_Zopp (negb s) (Zpos m) + cond_Zopp s (Zpos m~0))
            (e - 2) false =
          binary_round B32.prec B32.emax s m (e - 2)) as ->.
  { replace (cond_Zopp (negb s) (Zpos m) + cond_Zopp s (Zpos m~0))%Z
      with (cond_Zopp s (Zpos m))
      by (destruct s; unfold cond_Zopp; cbn [negb]; lia).
    destruct s; reflexivity. }
  rewrite B32Rounding.binary_round_no_shl
    by (rewrite Hd, B32Rounding.fexp_eq; lia).
  apply B32Rounding.round_aux_exact;
    [rewrite Hd, B32Rounding.fexp_eq; lia|lia].
Qed.

Lemma b32_alternating_taps (c : B32.float) :
  B32.quarters_exactly c = true -> B32.is_finite c = true ->
  (SFopp c / four + c / two + SFopp c / four)%S = S754_zero false.
Proof.
  destruct c as [s|s| |s m e]; cbn [B32.quarters_exactly B32.is_finite];
    intros Hc Hf; try discriminate.
  - destruct s; reflexivity.
  - apply andb_prop in Hc as [Hv He]. apply Z.leb_le in He.
    pose proof (@B32Rounding.valid_normal s m e Hv ltac:(lia)) as Hd.
    apply B32Rounding.valid_finite in Hv as [_ Hb]. cbn [SFopp].
    rewrite (@B32Rounding.div_two s m e Hd) by lia.
    rewrite (@B32Rounding.div_four (negb s) m e Hd) by lia.
    cbn [sadd binary32].
    rewrite add_half_minus_quarter by (try assumption; lia).
    apply add_opposite.
Qed.

(** X4: a signal at half the input rate is cancelled.  Feeding the pair
    [(c, -c)] repeatedly makes every output after the first exactly 0:
    for every [c] in exact arithmetic, and in single precision for every
    zero and every finite [c] of magnitude at least [2^-124]. *)
Theorem alternating_pair_cancelled :
  (forall (c : R) (d : fast_downsample R) (n : nat),
      fst (run operator_call_pair (repeat (c, - c)%R (S n)) d) =
      (x d + c / two + (- c)%R / four) :: repeat 0%R n) /\
  (forall (c : B32.float) (d : fast_downsample B32.float) (n : nat),
      B32.quarters_exactly c = true -> B32.is_finite c = true ->
      fst (run operator_call_pair (repeat (c, SFopp c) (S n)) d) =
      (x d + c / two + SFopp c / four) :: repeat (S754_zero false) n).
Proof.
  split.
  - intros c d n. rewrite repeated_pair_settles, exact_alternating_taps.
    reflexivity.
  - intros c d n Hc Hf.
    rewrite repeated_pair_settles, (b32_alternating_taps c Hc Hf).
    reflexivity.
Qed.

Lemma alternating_pair_cancelled_witness :
  let c := S754_finite false 13421773 (-27) in
  fst (run operator_call_pair (repeat (c, SFopp c) 3) make) =
  [S754_finite false 13421773 (-29); S754_zero false; S754_zero false].
Proof.
  cbv zeta.
  change (S754_finite false 13421773 (-29))
    with (x make + S754_finite false 13421773 (-27) / two
          + SFopp (S754_finite false 13421773 (-27)) / four).
  apply (proj2 alternating_pair_cancelled
           (S754_finite false 13421773 (-27)) make 2%nat);
    reflexivity.
Defined.

End DownsamplerStreamFacts.

(** ** The smoother on streams *)

Module SmootherDynamicsFacts.
Import DynamicSmoother DynamicSmootherFacts.
Import SmootherStability SmootherStabilityFacts SmootherDynamics.
Local Open Scope R_scope.

Lemma base_rate_range (d : dynamic_smoother R) :
  tuned d -> 0 < base_rate d <= 1.
Proof.
  intros [Hg _]. unfold base_rate.
  split; [apply Rmin_glb_lt; lra|apply Rmin_r].
Qed.

Lemma base_rate_le_g (d : dynamic_smoother R) :
  0 <= sense d -> base_rate d <= g d.
Proof.
  intros Hs. rewrite exact_g. unfold base_rate.
  pose proof (Rabs_pos (low1 d - low2 d)).
  apply Rle_min_compat_r. nra.
Qed.

Lemma base_rate_call (s : R) (d : dynamic_smoother R) :
  base_rate (snd (operator_call s d)) = base_rate d.
Proof. rewrite dynamic_smoother_step. reflexivity. Qed.

Lemma deviation_nonneg (c : R) (d : dynamic_smoother R) :
  0 <= deviation c d.
Proof. unfold deviation. eapply Rle_trans; [apply Rabs_pos|apply Rmax_l]. Qed.

Lemma abs_scale (k e : R) : 0 <= k -> Rabs (k * e) = k * Rabs e.
Proof. intros. rewrite Rabs_mult, (Rabs_right k) by lra. reflexivity. Qed.

(** One sample at the level [c] brings both registers closer to [c]:
    the first by the factor [1 - g], the second by at most
    [(1 - g) (1 + g)]. *)
Lemma call_contracts (c : R) (d : dynamic_smoother R) :
  tuned d ->
  deviation c (snd (operator_call c d)) <=
  (1 - base_rate d * base_rate d) * deviation c d.
Proof.
  intros Ht. pose proof (tuned_g Ht) as Hg.
  pose proof (base_rate_range Ht) as Hb.
  pose proof (base_rate_le_g d (proj2 Ht)) as Hbg.
  rewrite dynamic_smoother_step. unfold deviation at 1. cbn [snd low1 low2].
  exact_arith. set (k := g d) in *. set (b := base_rate d) in *.
  set (E := deviation c d).
  assert (Rabs (low1 d - c) <= E) as H1 by apply Rmax_l.
  assert (Rabs (low2 d - c) <= E) as H2 by apply Rmax_r.
  assert (0 <= E) as HE by apply deviation_nonneg.
  assert (1 - k * k <= 1 - b * b) as Hk by nra.
  replace (low1 d + k * (c - low1 d) - c)
    with ((1 - k) * (low1 d - c)) by ring.
  replace (low2 d + k * (low1 d + k * (c - low1 d) - low2 d) - c)
    with ((1 - k) * (low2 d - c) + (k * (1 - k)) * (low1 d - c)) by ring.
  assert (1 - k <= 1 - b * b) as Hk1 by nra.
  pose proof (Rabs_pos (low1 d - c)) as P1.
  pose proof (Rabs_pos (low2 d - c)) as P2.
  apply Rmax_lub.
  - rewrite abs_scale by lra.
    apply Rle_trans with ((1 - k) * E); [|apply Rmult_le_compat_r; lra].
    apply Rmult_le_compat_l; lra.
  - eapply Rle_trans; [apply Rabs_triang|].
    rewrite !abs_scale by nra.
    apply Rle_trans with ((1 - k) * E + k * (1 - k) * E).
    + apply Rplus_le_compat; apply Rmult_le_compat_l; nra.
    + replace ((1 - k) * E + k * (1 - k) * E)
        with ((1 - k * k) * E) by ring.
      apply Rmult_le_compat_r; lra.
Qed.

Lemma run_contracts (c : R) (n : nat) (d : dynamic_smoother R) :
  tuned d ->
  deviation c (snd (run operator_call (repeat c n) d)) <=
  (1 - base_rate d * base_rate d) ^ n * deviation c d.
Proof.
  intros Ht. revert d Ht. induction n as [|n IH]; intros d Ht.
  - cbn [repeat]. rewrite run_nil. cbn [snd]. simpl. lra.
  - cbn [repeat]. rewrite run_cons. cbn [snd].
    pose proof (call_contracts c Ht) as Hstep.
    pose proof (call_tuned c Ht) as Ht'.
    pose proof (IH _ Ht') as Hrest.
    rewrite base_rate_call in Hrest.
    pose proof (base_rate_range Ht) as Hb.
    set (q := 1 - base_rate d * base_rate d) in *.
    assert (0 <= q) by (unfold q; nra).
    assert (0 <= q ^ n) by (apply pow_le; assumption).
    eapply Rle_trans; [exact Hrest|].
    cbn [pow]. rewrite (Rmult_comm q (q ^ n)), Rmult_assoc.
    apply Rmult_le_compat_l; assumption.
Qed.

(** X5: in exact arithmetic, with a positive base coefficient and a
    non-negative sensitivity, a constant input [c] draws both registers
    to [c]: after [n] samples their distance from [c] is at most
    [(1 - r^2)^n] times the initial one, where [r = min(g0, 1)], and so
    falls below every positive bound. *)
Theorem constant_input_converges (c : R) (d : dynamic_smoother R) :
  tuned d ->
  (forall n : nat,
      deviation c (snd (run operator_call (repeat c n) d)) <=
      (1 - base_rate d * base_rate d) ^ n * deviation c d) /\
  (forall eps : R, 0 < eps ->
      exists N : nat, forall n : nat, (N <= n)%nat ->
        deviation c (snd (run operator_call (repeat c n) d)) < eps).
Proof.
  intros Ht. split; [intros n; apply run_contracts, Ht|].
  intros eps Heps.
  pose proof (base_rate_range Ht) as Hb.
  set (q := 1 - base_rate d * base_rate d) in *.
  assert (0 <= q < 1) as Hq by (unfold q; nra).
  pose proof (deviation_nonneg c d) as HE.
  destruct (pow_lt_1_zero q) with (y := eps / (deviation c d + 1))
    as [N HN].
  { rewrite Rabs_right by lra. lra. }
  { apply Rdiv_lt_0_compat; lra. }
  exists N. intros n Hn.
  eapply Rle_lt_trans; [apply run_contracts, Ht|]. fold q.
  specialize (HN n Hn).
  rewrite Rabs_right in HN by (apply Rle_ge, pow_le; lra).
  assert (0 <= q ^ n) by (apply pow_le; lra).
  apply Rle_lt_trans with (q ^ n * (deviation c d + 1)).
  - apply Rmult_le_compat_l; lra.
  - apply (Rmult_lt_compat_r (deviation c d + 1)) in HN; [|lra].
    unfold Rdiv in HN. rewrite Rmult_assoc, Rinv_l, Rmult_1_r in HN by lra.
    exact HN.
Qed.

Lemma constant_input_converges_witness :
  let d := {| sense := 2; wc := 1 / 8; g0 := 1 / 2; low1 := 0; low2 := 0 |} in
  (forall n : nat,
      deviation 1 (snd (run operator_call (repeat 1 n) d)) <=
      (1 - base_rate d * base_rate d) ^ n * deviation 1 d) /\
  (forall eps : R, 0 < eps ->
      exists N : nat, forall n : nat, (N <= n)%nat ->
        deviation 1 (snd (run operator_call (repeat 1 n) d)) < eps).
Proof.
  apply constant_input_converges. split; cbn; lra.
Defined.

Lemma saturated_g (d : dynamic_smoother R) :
  1 <= g0 d -> 0 <= sense d -> g d = 1.
Proof.
  intros Hg Hs. rewrite exact_g. pose proof (Rabs_pos (low1 d - low2 d)).
  apply Rmin_right. nra.
Qed.

Lemma saturated_call (d : dynamic_smoother R) (s : R) :
  1 <= g0 d -> 0 <= sense d ->
  operator_call s d =
  (low2 d,
   {| sense := sense d; wc := wc d; g0 := g0 d; low1 := s; low2 := s |}).
Proof.
  intros Hg Hs. rewrite dynamic_smoother_step, (saturated_g d Hg Hs).
  exact_arith. f_equal. f_equal; lra.
Qed.

Lemma saturated_run (d : dynamic_smoother R) (l : list R) :
  1 <= g0 d -> 0 <= sense d ->
  fst (run operator_call l d) = firstn (length l) (low2 d :: l).
Proof.
  revert d. induction l as [|s l IH]; intros d Hg Hs; [reflexivity|].
  rewrite run_cons, saturated_call by assumption.
  cbn [fst snd length firstn]. f_equal.
  rewrite IH by assumption. reflexivity.
Qed.

Lemma make_saturated (base sensitivity : R) (sps : N) :
  valid_base base sps -> IZR (Z.of_N sps) / 4 <= base ->
  1 <= g0 (make base sensitivity sps).
Proof.
  intros Hb Hq. pose proof (normalized_cutoff_range Hb) as Hw.
  change (g0 (make base sensitivity sps))
    with (base_coefficient (base / IZR (Z.of_N sps))).
  destruct Hb as [Hb0 Hb1]. set (r := IZR (Z.of_N sps)) in *.
  assert (0 < r) by lra.
  assert (1 / 4 <= base / r) as Hw4.
  { apply (Rmult_le_reg_r r); [lra|].
    unfold Rdiv at 2. rewrite Rmult_assoc, Rinv_l by lra. lra. }
  destruct (base_coefficient_vs_one Hw) as [Hle Hgt].
  destruct (Req_dec (base / r) (1 / 4)) as [He|Hne].
  - rewrite He, exact_base_coefficient.
    replace (PI * (1 / 4)) with (PI / 4) by lra. rewrite tan_PI4. lra.
  - left. apply Hgt. lra.
Qed.

(** X6: from a quarter of the sampling rate on, the smoother does not
    smooth.  In exact arithmetic, a smoother constructed with a base
    frequency of at least a quarter of and below half the sampling rate
    and a non-negative sensitivity returns its input delayed by one
    sample: the outputs for the samples [l] are [0 :: l] without its
    last element. *)
Theorem quarter_rate_smoother_is_delay (base sensitivity : R) (sps : N)
  (l : list R) :
  valid_base base sps -> IZR (Z.of_N sps) / 4 <= base -> 0 <= sensitivity ->
  fst (run operator_call l (make base sensitivity sps)) =
  firstn (length l) (0 :: l).
Proof.
  intros Hb Hq Hs.
  rewrite saturated_run.
  - reflexivity.
  - apply make_saturated; assumption.
  - change (sense (make base sensitivity sps)) with (sensitivity * 4). lra.
Qed.

Lemma quarter_rate_smoother_is_delay_witness :
  fst (run operator_call [1; -1; 1 / 2] (make 16000 (1 / 2) 48000)) =
  [0; 1; -1].
Proof.
  apply (@quarter_rate_smoother_is_delay 16000 (1 / 2) 48000 [1; -1; 1 / 2]).
  - unfold valid_base; simpl; lra.
  - simpl; lra.
  - lra.
Defined.

(** X7: the coefficient rises with the activity of the signal.  In
    exact arithmetic, with a non-negative sensitivity, the per-sample
    coefficient is at least [min(g0, 1)], and of two states of one
    configuration the one with the larger distance between its registers
    has the larger coefficient. *)
Theorem coefficient_rises_with_activity (d1 d2 : dynamic_smoother R) :
  g0 d1 = g0 d2 -> sense d1 = sense d2 -> 0 <= sense d1 ->
  Rabs (low1 d1 - low2 d1) <= Rabs (low1 d2 - low2 d2) ->
  Rmin (g0 d1) 1 <= g d1 <= g d2.
Proof.
  intros Hg Hs Hpos Hb. rewrite !exact_g, <- Hg, <- Hs.
  pose proof (Rabs_pos (low1 d1 - low2 d1)).
  split; apply Rle_min_compat_r; nra.
Qed.

Lemma coefficient_rises_with_activity_witness :
  let d (l1 : R) :=
    {| sense := 2; wc := 1 / 8; g0 := 1 / 4; low1 := l1; low2 := 0 |} in
  Rmin (g0 (d (1 / 8))) 1 <= g (d (1 / 8)) <= g (d (- 1 / 4)).
Proof.
  apply coefficient_rises_with_activity; cbn; try reflexivity; try lra.
  replace (1 / 8 - 0) with (1 / 8) by lra.
  replace (- 1 / 4 - 0) with (- (1 / 4)) by lra.
  rewrite Rabs_Ropp, !Rabs_right by lra. lra.
Defined.

Lemma shift_g (k : R) (d : dynamic_smoother R) : g (shift k d) = g d.
Proof.
  rewrite !exact_g. cbn [shift g0 sense low1 low2].
  replace (low1 d + k - (low2 d + k)) with (low1 d - low2 d) by lra.
  reflexivity.
Qed.

Lemma negate_g (d : dynamic_smoother R) : g (negate d) = g d.
Proof.
  rewrite !exact_g. cbn [negate g0 sense low1 low2].
  replace (- low1 d - - low2 d) with (- (low1 d - low2 d)) by lra.
  rewrite Rabs_Ropp. reflexivity.
Qed.

Lemma shift_call (k : R) (d : dynamic_smoother R) (s : R) :
  operator_call (s + k) (shift k d) =
  (fst (operator_call s d) + k, shift k (snd (operator_call s d))).
Proof.
  rewrite !dynamic_smoother_step, shift_g. unfold shift.
  cbn [fst snd low1 low2 sense wc g0].
  exact_arith. f_equal. f_equal; ring.
Qed.

Lemma negate_call (d : dynamic_smoother R) (s : R) :
  operator_call (- s) (negate d) =
  (- fst (operator_call s d), negate (snd (operator_call s d))).
Proof.
  rewrite !dynamic_smoother_step, negate_g. unfold negate.
  cbn [fst snd low1 low2 sense wc g0].
  exact_arith. f_equal. f_equal; ring.
Qed.

(** X8: in exact arithmetic the smoother treats rises and falls alike
    and ignores a constant offset: adding [k] to both registers and to
    every sample adds [k] to every output, and negating the registers
    and the samples negates the outputs, for every configuration. *)
Theorem smoother_equivariant :
  forall (d : dynamic_smoother R) (l : list R),
    (forall k : R,
        fst (run operator_call (map (fun s => s + k) l) (shift k d)) =
        map (fun o => o + k) (fst (run operator_call l d))) /\
    fst (run operator_call (map Ropp l) (negate d)) =
    map Ropp (fst (run operator_call l d)).
Proof.
  intros d l. split.
  - intros k. revert d. induction l as [|s l IH]; intros d; [reflexivity|].
    cbn [map]. rewrite !run_cons, shift_call. cbn [fst snd map].
    rewrite IH. reflexivity.
  - revert d. induction l as [|s l IH]; intros d; [reflexivity|].
    cbn [map]. rewrite !run_cons, negate_call. cbn [fst snd map].
    rewrite IH. reflexivity.
Qed.

Lemma unmodulated_g (d : dynamic_smoother R) :
  sense d = 0 -> g0 d <= 1 -> g d = g0 d.
Proof.
  intros Hs Hg. rewrite exact_g, Hs. rewrite Rmult_0_l, Rplus_0_r.
  apply Rmin_left. exact Hg.
Qed.

(** X9: without self-modulation the smoother is two dynamic low-passes
    in a row.  In exact arithmetic, with sensitivity 0 and a base
    coefficient of at most 1, the outputs are those of a
    [dynamic_lowpass] called with the coefficient [g0] on the outputs of
    another one called with [g0] on the samples, delayed by one
    sample. *)
Theorem unmodulated_smoother_is_cascade (d : dynamic_smoother R)
  (l : list R) :
  sense d = 0 -> g0 d <= 1 ->
  fst (run operator_call l d) =
  firstn (length l)
    (low2 d :: stage (g0 d) (low2 d) (stage (g0 d) (low1 d) l)).
Proof.
  revert d. induction l as [|s l IH]; intros d Hs Hg; [reflexivity|].
  rewrite run_cons, dynamic_smoother_step, (unmodulated_g d Hs Hg).
  cbn [fst snd length firstn]. f_equal.
  rewrite IH by assumption. cbn [low1 low2 g0].
  unfold stage. rewrite !run_cons.
  rewrite !DynamicLowpassFacts.dynamic_lowpass_step.
  cbn [fst snd DynamicLowpass._y]. rewrite run_cons.
  rewrite !DynamicLowpassFacts.dynamic_lowpass_step.
  cbn [fst snd DynamicLowpass._y].
  destruct l; reflexivity.
Qed.

Lemma unmodulated_smoother_is_cascade_witness :
  let d := {| sense := 0; wc := 1 / 8; g0 := 1 / 2; low1 := 0; low2 := 0 |} in
  fst (run operator_call [1; 1] d) =
  firstn 2 (0 :: stage (1 / 2) 0 (stage (1 / 2) 0 [1; 1])).
Proof.
  apply (@unmodulated_smoother_is_cascade
           {| sense := 0; wc := 1 / 8; g0 := 1 / 2; low1 := 0; low2 := 0 |}
           [1; 1]); cbn; lra.
Defined.

Lemma retuned_is_tuned (d : dynamic_smoother R) (base : R) (sps : N) :
  valid_base base sps -> 0 <= sense d ->
  tuned (snd (base_frequency base sps d)).
Proof.
  intros Hb Hs. pose proof (normalized_cutoff_range Hb) as Hw.
  rewrite base_frequency_step. split; [|exact Hs].
  cbn [snd g0]. apply base_coefficient_range. exact Hw.
Qed.

Lemma run_within (lo hi : R) (l : list R) (d : dynamic_smoother R) :
  tuned d -> within lo hi d -> Forall (fun s => lo <= s <= hi) l ->
  Forall (fun o => lo <= o <= hi) (fst (run operator_call l d)) /\
  within lo hi (snd (run operator_call l d)) /\
  tuned (snd (run operator_call l d)).
Proof.
  intros Ht Hin Hl. revert d Ht Hin.
  induction Hl as [|s l Hs Hl IH]; intros d Ht Hin.
  - split; [constructor|split; assumption].
  - rewrite run_cons. cbn [fst snd].
    destruct (IH (snd (operator_call s d))) as (H1 & H2 & H3).
    + apply call_tuned, Ht.
    + apply call_within; assumption.
    + split; [|split; assumption].
      constructor; [|exact H1].
      rewrite dynamic_smoother_step. cbn [fst]. apply Hin.
Qed.

(** X10: the reconfiguration and the constructor agree, and a
    reconfiguration repairs a smoother that was constructed with a base
    frequency out of range.  In every sample arithmetic, retuning
    derives the same [wc] and [g0] as a construction with that base
    frequency and sampling rate; of two retunings the last one wins; and
    a retuning does not change the value that the next call returns.  In
    exact arithmetic, after a retuning to a base frequency strictly
    between 0 and half the sampling rate, whatever [wc] and [g0] were
    before, a smoother with a non-negative sensitivity keeps its outputs
    and registers within the magnitude [B] of its registers and samples,
    and its coefficient in (0, 1]. *)
Theorem retuning_laws :
  (forall (T : Type) (SampleT : Sample T) (TrigT : Trig T)
          (d : dynamic_smoother T) (base base' sensitivity s : T)
          (sps sps' : N),
      let d1 := snd (base_frequency base sps d) in
      wc d1 = wc (make base sensitivity sps) /\
      g0 d1 = g0 (make base sensitivity sps) /\
      snd (base_frequency base sps (snd (base_frequency base' sps' d))) =
        d1 /\
      snd (base_frequency base sps (make base sensitivity sps)) =
        make base sensitivity sps /\
      fst (operator_call s d1) = fst (operator_call s d)) /\
  (forall (d : dynamic_smoother R) (base B : R) (sps : N) (l : list R),
      valid_base base sps -> 0 <= sense d -> within (- B) B d ->
      Forall (fun s => - B <= s <= B) l ->
      let r := run operator_call l (snd (base_frequency base sps d)) in
      Forall (fun o => - B <= o <= B) (fst r) /\
      within (- B) B (snd r) /\
      0 < g (snd r) <= 1).
Proof.
  split.
  - intros. cbv zeta. repeat split.
  - intros d base B sps l Hb Hs Hin Hl. cbv zeta.
    pose proof (retuned_is_tuned d Hb Hs) as Ht.
    assert (within (- B) B (snd (base_frequency base sps d))) as Hin'
      by (rewrite base_frequency_step; exact Hin).
    destruct (run_within Ht Hin' Hl) as (H1 & H2 & H3).
    split; [exact H1|]. split; [exact H2|apply tuned_g, H3].
Qed.

Lemma retuning_laws_witness :
  let d := {| sense := 2; wc := 3; g0 := -5; low1 := 1 / 2;
              low2 := - (1 / 2) |} in
  let r := run operator_call [1; -1] (snd (base_frequency 1000 48000 d)) in
  Forall (fun o => - (1) <= o <= 1) (fst r) /\
  within (- (1)) 1 (snd r) /\
  0 < g (snd r) <= 1.
Proof.
  cbv zeta.
  apply (proj2 retuning_laws
           {| sense := 2; wc := 3; g0 := -5; low1 := 1 / 2;
              low2 := - (1 / 2) |} 1000 1 48000%N [1; -1]).
  - unfold valid_base; simpl; lra.
  - cbn [sense]. lra.
  - unfold within. cbn [low1 low2]. lra.
  - apply Forall_cons; [lra|]. apply Forall_cons; [lra|]. apply Forall_nil.
Defined.

Lemma run_reachable (B : R) (l : list R) (d : dynamic_smoother R) :
  reachable B d -> Forall (fun s => Rabs s <= B) l ->
  reachable B (snd (run operator_call l d)).
Proof.
  intros Hr Hl. revert d Hr.
  induction Hl as [|s l Hs Hl IH]; intros d Hr; [exact Hr|].
  rewrite run_cons. cbn [snd]. apply IH. apply reach_call; assumption.
Qed.

Lemma run_outputs_bounded (B : R) (l : list R) (d : dynamic_smoother R) :
  0 <= B -> reachable B d -> Forall (fun s => Rabs s <= B) l ->
  Forall (fun o => Rabs o <= B) (fst (run operator_call l d)).
Proof.
  intros HB Hr Hl. revert d Hr.
  induction Hl as [|s l Hs Hl IH]; intros d Hr; [constructor|].
  rewrite run_cons. cbn [fst]. constructor.
  - rewrite dynamic_smoother_step. cbn [fst].
    destruct (reachable_stable HB Hr) as (_ & _ & _ & [_ H2]).
    apply Rabs_le. exact H2.
  - apply IH. apply reach_call; assumption.
Qed.

(** X11: the two-argument constructor sets the scaled sensitivity to 2,
    and the smoother it builds is stable in exact arithmetic: for a base
    frequency strictly between 0 and half the sampling rate and samples
    of magnitude at most [B], every output and both registers have
    magnitude at most [B], and the coefficient stays in (0, 1]. *)
Theorem default_smoother_bounded (base B : R) (sps : N) (l : list R) :
  valid_base base sps -> 0 <= B -> Forall (fun s => Rabs s <= B) l ->
  let r := run operator_call l (make_default base sps) in
  sense (make_default base sps) = 2 /\
  Forall (fun o => Rabs o <= B) (fst r) /\
  Rabs (low1 (snd r)) <= B /\ Rabs (low2 (snd r)) <= B /\
  0 < g (snd r) <= 1.
Proof.
  intros Hb HB Hl. cbv zeta.
  assert (reachable B (make_default base sps)) as Hr
    by (apply reach_make; [exact Hb|cbn; lra]).
  pose proof (run_reachable Hr Hl) as Hr'.
  pose proof (reachable_stable HB Hr') as Hst.
  pose proof (stable_tuned Hst) as Ht.
  destruct Hst as (_ & _ & _ & [H1 H2]).
  split.
  - change (sense (make_default base sps)) with (1 / 2 * 4). lra.
  - split; [apply run_outputs_bounded; assumption|].
    split; [apply Rabs_le; exact H1|].
    split; [apply Rabs_le; exact H2|apply tuned_g, Ht].
Qed.

Lemma default_smoother_bounded_witness :
  let r := run operator_call [1; -1] (make_default 1000 48000) in
  sense (make_default 1000 48000) = 2 /\
  Forall (fun o => Rabs o <= 1) (fst r) /\
  Rabs (low1 (snd r)) <= 1 /\ Rabs (low2 (snd r)) <= 1 /\
  0 < g (snd r) <= 1.
Proof.
  apply (@default_smoother_bounded 1000 1 48000 [1; -1]).
  - unfold valid_base; simpl; lra.
  - lra.
  - apply Forall_cons; [rewrite Rabs_R1; lra|].
    apply Forall_cons; [unfold Rabs; destruct (Rcase_abs (-1)); lra|].
    apply Forall_nil.
Defined.

End SmootherDynamicsFacts.

(** ** The low-pass on streams *)

Module LowpassStreamFacts.
Import DynamicLowpass DynamicLowpassFacts LowpassStreams.
Local Open Scope R_scope.

Lemma lowpass_pair_step {T : Type} {SampleT : Sample T}
  (d : dynamic_lowpass T) (p : T * T) :
  operator_call_pair p d =
  ((_y d + snd p * (fst p - _y d))%S,
   {| _y := (_y d + snd p * (fst p - _y d))%S |}).
Proof. reflexivity. Qed.

Lemma seeded_run (c : R) (l : list R) :
  fst (run (fun a => operator_call c a) l {| _y := c |}) =
  repeat c (length l) /\
  snd (run (fun a => operator_call c a) l {| _y := c |}) = {| _y := c |}.
Proof.
  induction l as [|a l [IH1 IH2]]; [split; reflexivity|].
  rewrite run_cons, dynamic_lowpass_step. cbn [fst snd _y]. exact_arith.
  replace (c + a * (c - c)) with c by ring.
  rewrite IH1, IH2. split; reflexivity.
Qed.

(** X12: the assignment operator seeds the filter.  In every sample
    arithmetic the accessor reads back the assigned value, and assigning
    0 gives the state after construction.  In exact arithmetic a filter
    seeded with the level [c] of a constant input is in its steady
    state: every call on the sample [c] returns [c], whatever the
    coefficients and whatever the state before the assignment. *)
Theorem lowpass_assign_seeds :
  (forall (T : Type) (SampleT : Sample T) (y_ : T) (d : dynamic_lowpass T),
      fst (operator_call_const (snd (operator_assign y_ d))) = y_ /\
      snd (operator_assign zero d) = make) /\
  (forall (c : R) (d : dynamic_lowpass R) (coefficients : list R),
      fst (run (fun a => operator_call c a) coefficients
             (snd (operator_assign c d))) =
      repeat c (length coefficients)).
Proof.
  split.
  - intros. split; reflexivity.
  - intros c d l. apply (seeded_run c l).
Qed.

(** X13: in exact arithmetic the low-pass with a fixed coefficient [a]
    and a constant input [c] follows a geometric law: after [n] calls
    the state is [c + (1 - a)^n (y - c)].  It approaches [c] exactly
    when [|1 - a| < 1], and moves away from it when [|1 - a| > 1]. *)
Theorem lowpass_closed_form (a c : R) (n : nat) (d : dynamic_lowpass R) :
  _y (snd (run (fun s => operator_call s a) (repeat c n) d)) =
  c + (1 - a) ^ n * (_y d - c).
Proof.
  revert d. induction n as [|n IH]; intros d.
  - cbn [repeat]. rewrite run_nil. cbn. lra.
  - cbn [repeat]. rewrite run_cons. cbn [snd]. rewrite IH.
    rewrite dynamic_lowpass_step. cbn [snd _y pow]. exact_arith. ring.
Qed.

(** X14: in exact arithmetic, with coefficients in [0, 1] the low-pass
    never leaves the range of its state and its samples: if the state
    and all samples lie between [lo] and [hi], so do all outputs. *)
Theorem lowpass_stays_within (lo hi : R) (l : list (R * R))
  (d : dynamic_lowpass R) :
  lo <= _y d <= hi -> Forall (tame lo hi) l ->
  Forall (fun o => lo <= o <= hi) (fst (run operator_call_pair l d)) /\
  lo <= _y (snd (run operator_call_pair l d)) <= hi.
Proof.
  intros Hy Hl. revert d Hy.
  induction Hl as [|p l [Hs Ha] Hl IH]; intros d Hy.
  - split; [constructor|exact Hy].
  - rewrite run_cons, lowpass_pair_step. cbn [fst snd]. exact_arith.
    assert (lo <= _y d + snd p * (fst p - _y d) <= hi) as Hy'
      by (apply SmootherStabilityFacts.convex_within; assumption).
    destruct (IH {| _y := _y d + snd p * (fst p - _y d) |}) as [Hos Hfin];
      [exact Hy'|].
    split; [constructor; assumption|exact Hfin].
Qed.

Lemma lowpass_stays_within_witness :
  let l := [(1, 1 / 2); (-1, 1); (1 / 2, 0)] in
  Forall (fun o => -1 <= o <= 1) (fst (run operator_call_pair l make)) /\
  -1 <= _y (snd (run operator_call_pair l make)) <= 1.
Proof.
  apply (@lowpass_stays_within (-1) 1).
  - cbn. lra.
  - apply Forall_cons; [split; cbn; lra|].
    apply Forall_cons; [split; cbn; lra|].
    apply Forall_cons; [split; cbn; lra|apply Forall_nil].
Defined.

End LowpassStreamFacts.

(** ** The detectors on streams *)

Module OnsetStreamFacts.
Import OnsetDetector OnsetDetectorFacts OnsetStreams.
Local Open Scope sample_scope.

Lemma val_after_call {T : Type} {SampleT : Sample T} {SchmittT : Schmitt T}
  {EnvelopeT : Envelope T} (o : onset_detector T) (s : T) :
  _val (snd (operator_call s o)) = fst (operator_call s o).
Proof. rewrite onset_detector_step. destruct (above o s); reflexivity. Qed.

(** X15: while the comparator stays above, the onset detector holds the
    running peak.  For every sample arithmetic and all collaborators, if
    the comparator reports "above" on every sample of a stream, the
    outputs are the successive values of [std::max] folded over the
    magnitudes, starting from the latch before the stream. *)
Theorem onset_holds_running_peak :
  forall (T : Type) (SampleT : Sample T) (SchmittT : Schmitt T)
         (EnvelopeT : Envelope T) (l : list T) (o : onset_detector T),
    all_above o l = true ->
    fst (run operator_call l o) = running_max (_val o) (map sabs l) /\
    _val (snd (run operator_call l o)) =
    fold_left std_max (map sabs l) (_val o).
Proof.
  intros T SampleT SchmittT EnvelopeT l.
  induction l as [|s l IH]; intros o Hall; [split; reflexivity|].
  cbn [all_above] in Hall. apply andb_prop in Hall as [Hs Hl].
  destruct (IH _ Hl) as [Hout Hval].
  rewrite run_cons. cbn [fst snd map running_max fold_left].
  rewrite Hout, Hval, val_after_call.
  rewrite onset_detector_step, Hs. cbn [fst]. split; reflexivity.
Qed.

Lemma onset_holds_running_peak_witness :
  let q (n : Z) : B32.float := B32.of_dyadic n (-2) in
  let schmitt := SpecSchmitt.instance B32.float in
  let envelope :=
    SpecEnvelope.instance (fun _ _ => q 1%Z) (fun _ _ => q 3%Z)
      (B32.of_dyadic 1 (-6)) in
  let o :=
    make (SchmittT := schmitt) (EnvelopeT := envelope) (q 2%Z) (q 1%Z) 48000 in
  fst (run (operator_call (SchmittT := schmitt) (EnvelopeT := envelope))
         [q 2%Z; q (-4)%Z] o) =
    running_max (_val o) (map sabs [q 2%Z; q (-4)%Z]) /\
  _val (snd (run (operator_call (SchmittT := schmitt)
                    (EnvelopeT := envelope)) [q 2%Z; q (-4)%Z] o)) =
    fold_left std_max (map sabs [q 2%Z; q (-4)%Z]) (_val o).
Proof.
  cbv zeta. apply onset_holds_running_peak. vm_compute. reflexivity.
Defined.

(** X16: the onset detector never invents a value.  For every sample
    arithmetic and all collaborators, every output, and the latch, is 0,
    the latch before the stream, or the magnitude of one of the samples
    fed. *)
Theorem onset_reports_seen_magnitudes :
  forall (T : Type) (SampleT : Sample T) (SchmittT : Schmitt T)
         (EnvelopeT : Envelope T) (l : list T) (o : onset_detector T),
    Forall (fun v => In v (zero :: _val o :: map sabs l))
      (fst (run operator_call l o)) /\
    In (_val (snd (run operator_call l o))) (zero :: _val o :: map sabs l).
Proof.
  intros T SampleT SchmittT EnvelopeT l.
  induction l as [|s l IH]; intros o.
  - split; [constructor|right; left; reflexivity].
  - rewrite run_cons. cbn [fst snd map].
    assert (In (fst (operator_call s o))
              (zero :: _val o :: sabs s :: map sabs l)) as Hfirst.
    { rewrite onset_detector_step. destruct (above o s); cbn [fst].
      - unfold std_max, magnitude. destruct (_val o <? sabs s).
        + right; right; left; reflexivity.
        + right; left; reflexivity.
      - left; reflexivity. }
    destruct (IH (snd (operator_call s o))) as [Hout Hval].
    rewrite val_after_call in Hout, Hval.
    assert (forall v,
               In v (zero :: fst (operator_call s o) :: map sabs l) ->
               In v (zero :: _val o :: sabs s :: map sabs l)) as Hincl.
    { intros v [Hv|[Hv|Hv]].
      - left; exact Hv.
      - subst v. exact Hfirst.
      - right; right; right; exact Hv. }
    split.
    + constructor; [exact Hfirst|].
      eapply Forall_impl; [|exact Hout]. exact Hincl.
    + apply Hincl, Hval.
Qed.

Lemma max_abs_sign_clear (v s : B32.float) :
  sign_clear v = true -> sign_clear (std_max v (sabs s)) = true.
Proof.
  intros Hv. unfold std_max. destruct (v <? sabs s) eqn:E; [|exact Hv].
  destruct s; try reflexivity.
  cbn in E. unfold SFltb in E. destruct v; discriminate.
Qed.

Lemma call_sign_clear (SchmittT : Schmitt B32.float)
  (EnvelopeT : Envelope B32.float) (o : onset_detector B32.float)
  (s : B32.float) :
  sign_clear (_val o) = true ->
  sign_clear (fst (operator_call s o)) = true.
Proof.
  intros Hv. rewrite onset_detector_step. destruct (above o s); cbn [fst].
  - apply max_abs_sign_clear, Hv.
  - reflexivity.
Qed.

(** X17: in single precision the onset detector never returns a value
    that is not a number, nor a negative one.  For all collaborators and
    every stream of samples, samples that are not numbers included,
    every output of a constructed detector and the value its accessor
    reads are numbers with a clear sign bit: [std::max(_val, abs_s)]
    keeps [_val] when [abs_s] is not a number. *)
Theorem onset_output_is_a_magnitude :
  forall (SchmittT : Schmitt B32.float) (EnvelopeT : Envelope B32.float)
         (sensitivity decay : B32.float) (sps : N) (l : list B32.float),
    let r := run operator_call l (make sensitivity decay sps) in
    forallb sign_clear (fst r) = true /\
    sign_clear (fst (operator_call_const (snd r))) = true.
Proof.
  intros SchmittT EnvelopeT sensitivity decay sps l. cbv zeta.
  assert (forall o, sign_clear (_val o) = true ->
            forallb sign_clear (fst (run operator_call l o)) = true /\
            sign_clear (_val (snd (run operator_call l o))) = true) as H.
  { induction l as [|s l IH]; intros o Ho; [split; [reflexivity|exact Ho]|].
    rewrite run_cons. cbn [fst snd forallb].
    pose proof (@call_sign_clear _ _ o s Ho) as Hc.
    destruct (IH (snd (operator_call s o))) as [H1 H2].
    { rewrite val_after_call. exact Hc. }
    rewrite Hc, H1. split; [reflexivity|exact H2]. }
  apply H. reflexivity.
Qed.

End OnsetStreamFacts.

Module ComparatorStreamFacts.
Local Open Scope sample_scope.

(** X18: over a stream the zero-crossing detector is its comparator.
    For every sample arithmetic and every comparator, the outputs are
    the comparator's verdicts on the samples against the reference 0,
    converted to 0 and 1, the comparator ends in the state it would
    reach alone, and no output is anything but 0 or 1. *)
Theorem zero_cross_follows_comparator :
  forall (T : Type) (SampleT : Sample T) (SchmittT : Schmitt T)
         (l : list T) (z : ZeroCross.zero_cross T),
    let verdicts :=
      run (fun s => schmitt_trigger_call s zero) l (ZeroCross._cmp z) in
    fst (run ZeroCross.operator_call l z) = map of_bool (fst verdicts) /\
    ZeroCross._cmp (snd (run ZeroCross.operator_call l z)) = snd verdicts /\
    Forall (fun o => o = zero \/ o = one)
      (fst (run ZeroCross.operator_call l z)).
Proof.
  intros T SampleT SchmittT l. cbv zeta.
  induction l as [|s l IH]; intros z.
  - repeat split. constructor.
  - rewrite !run_cons, ZeroCrossFacts.zero_cross_step. cbv beta.
    cbn [fst snd map ZeroCross._cmp].
    destruct (IH {| ZeroCross._cmp :=
                      snd (schmitt_trigger_call s zero (ZeroCross._cmp z));
                    ZeroCross._state := ZeroCross._state z |})
      as (H1 & H2 & H3).
    cbn [ZeroCross._cmp] in H1, H2. rewrite H1, H2. repeat split.
    constructor; [|rewrite <- H1; exact H3].
    destruct (fst (schmitt_trigger_call s zero (ZeroCross._cmp z)));
      [right|left]; reflexivity.
Qed.

Lemma peak_pair_step {T : Type} {SampleT : Sample T} {SchmittT : Schmitt T}
  (p : Peak.peak T) (q : T * T) :
  PeakStreams.operator_call_pair q p =
  (fst (schmitt_trigger_call (fst q) (snd q * Peak._sensitivity p)
          (Peak._cmp p)),
   {| Peak._sensitivity := Peak._sensitivity p;
      Peak._cmp := snd (schmitt_trigger_call (fst q)
                          (snd q * Peak._sensitivity p) (Peak._cmp p)) |}).
Proof.
  unfold PeakStreams.operator_call_pair, Peak.operator_call, bind, get, zoom,
    Peak.set_cmp.
  destruct (schmitt_trigger_call (fst q) (snd q * Peak._sensitivity p)
              (Peak._cmp p)); reflexivity.
Qed.

(** X19: the peak detector compares each sample with the envelope
    supplied with it, attenuated by the sensitivity it was constructed
    with.  For every sample arithmetic and every comparator, over a
    stream of sample and envelope pairs the results are the comparator's
    verdicts on [(s, env * sensitivity)], the comparator ends in the
    state it would reach alone, and the sensitivity never changes. *)
Theorem peak_follows_comparator :
  forall (T : Type) (SampleT : Sample T) (SchmittT : Schmitt T)
         (l : list (T * T)) (p : Peak.peak T),
    let verdicts :=
      run (fun q => schmitt_trigger_call (fst q)
                      (snd q * Peak._sensitivity p))
        l (Peak._cmp p) in
    fst (run PeakStreams.operator_call_pair l p) = fst verdicts /\
    Peak._cmp (snd (run PeakStreams.operator_call_pair l p)) =
      snd verdicts /\
    Peak._sensitivity (snd (run PeakStreams.operator_call_pair l p)) =
      Peak._sensitivity p.
Proof.
  intros T SampleT SchmittT l. cbv zeta.
  induction l as [|q l IH]; intros p.
  - repeat split.
  - rewrite !run_cons, !peak_pair_step. cbv beta. cbn [fst snd].
    destruct (IH {| Peak._sensitivity := Peak._sensitivity p;
                    Peak._cmp :=
                      snd (schmitt_trigger_call (fst q)
                             (snd q * Peak._sensitivity p) (Peak._cmp p)) |})
      as (H1 & H2 & H3).
    cbn [Peak._cmp Peak._sensitivity] in H1, H2, H3.
    split; [rewrite H1; reflexivity|]. split; [exact H2|exact H3].
Qed.

End ComparatorStreamFacts.

(** ** test/pitch_follower.cpp: the normalized input channel *)

Module PitchFollowerTestFacts.
Import PitchFollowerTest.
Local Open Scope R_scope.

Lemma max_element_from_in {T : Type} {SampleT : Sample T}
  (l : list T) (a : T) :
  In (max_element_from a l) (a :: l).
Proof.
  revert a. induction l as [|y l IH]; intros a; [left; reflexivity|].
  cbn [max_element_from].
  destruct (IH (if abs_less a y then y else a)) as [H|H].
  - destruct (abs_less a y); [right; left|left]; exact H.
  - right; right; exact H.
Qed.

Lemma exact_abs_less (a b : R) : abs_less a b = Rltb (Rabs a) (Rabs b).
Proof. reflexivity. Qed.

Lemma max_element_from_dominates (l : list R) (a : R) :
  Rabs a <= Rabs (max_element_from a l) /\
  Forall (fun y => Rabs y <= Rabs (max_element_from a l)) l.
Proof.
  revert a. induction l as [|y l IH]; intros a.
  - split; [apply Rle_refl|constructor].
  - cbn [max_element_from]. rewrite exact_abs_less.
    destruct (Rltb (Rabs a) (Rabs y)) eqn:E.
    + apply Rltb_true in E. destruct (IH y) as [H1 H2].
      split; [lra|constructor; assumption].
    + apply Rltb_false in E. destruct (IH a) as [H1 H2].
      split; [exact H1|constructor; [lra|exact H2]].
Qed.

(** X20: [max_val] is the sample of greatest magnitude.  In every
    sample arithmetic it is one of the samples, and there is none only
    for an empty input.  In exact arithmetic no sample has a larger
    magnitude, and it is 0 exactly when every sample is 0. *)
Theorem max_val_is_the_peak :
  (forall (T : Type) (SampleT : Sample T) (input : list T),
      match max_val input with
      | Some m => In m input
      | None => input = []
      end) /\
  (forall (input : list R),
      match max_val input with
      | Some m =>
          Forall (fun y => Rabs y <= Rabs m) input /\
          (m = 0 <-> Forall (fun y => y = 0) input)
      | None => input = []
      end).
Proof.
  split.
  - intros T SampleT [|a l]; [reflexivity|]. apply max_element_from_in.
  - intros [|a l]; [reflexivity|]. cbn [max_val].
    destruct (max_element_from_dominates l a) as [H1 H2].
    assert (Forall (fun y => Rabs y <= Rabs (max_element_from a l))
              (a :: l)) as Hall by (constructor; assumption).
    split; [exact Hall|]. split.
    + intros Hm. rewrite Hm, Rabs_R0 in Hall.
      eapply Forall_impl; [|exact Hall]. intros y Hy. cbv beta in Hy.
      pose proof (Rabs_pos y).
      destruct (Req_dec y 0) as [|Hne]; [assumption|].
      apply Rabs_pos_lt in Hne. lra.
    + intros Hz. pose proof (max_element_from_in l a) as Hin.
      rewrite Forall_forall in Hz. apply Hz, Hin.
Qed.

(** X21: in exact arithmetic the normalized channel stays within the
    unit range, and the sample of greatest magnitude is written as +1
    whatever its sign: an input whose largest excursion is negative is
    written inverted.  This needs an input that is not silent, for
    [max_val] is the divisor. *)
Theorem normalized_within_unit (input : list R) (m : R) :
  max_val input = Some m -> m <> 0 ->
  Forall (fun s => Rabs (normalized s m) <= 1) input /\
  normalized m m = 1 /\
  (m < 0 -> forall s : R, 0 < s -> normalized s m < 0).
Proof.
  intros Hm Hne. destruct input as [|a l]; [discriminate|].
  cbn [max_val] in Hm. injection Hm as Hm.
  destruct (max_element_from_dominates l a) as [H1 H2]. rewrite Hm in H1, H2.
  assert (0 < Rabs m) as Hpos by (apply Rabs_pos_lt; exact Hne).
  assert (forall s, Rabs s <= Rabs m -> Rabs (normalized s m) <= 1) as Hn.
  { intros s Hs. unfold normalized. exact_arith.
    rewrite Rmult_1_r. unfold Rdiv. rewrite Rabs_mult, Rabs_inv.
    apply (Rmult_le_reg_r (Rabs m)); [exact Hpos|].
    rewrite Rmult_assoc, Rinv_l by lra. lra. }
  split; [|split].
  - constructor; [apply Hn, H1|].
    eapply Forall_impl; [|exact H2]. intros s Hs. apply Hn, Hs.
  - unfold normalized. exact_arith. field. exact Hne.
  - intros Hneg s Hs. unfold normalized. exact_arith.
    rewrite Rmult_1_r. unfold Rdiv.
    assert (/ m < 0) by (apply Rinv_lt_0_compat; exact Hneg).
    nra.
Qed.

Lemma normalized_within_unit_witness :
  Forall (fun s => Rabs (normalized s (-2)) <= 1) [1; -2; 1 / 2] /\
  normalized (-2) (-2) = 1 /\
  (-2 < 0 -> forall s : R, 0 < s -> normalized s (-2) < 0).
Proof.
  apply (@normalized_within_unit [1; -2; 1 / 2] (-2)).
  - assert (Rabs (-2) = 2) as Habs
      by (unfold Rabs; destruct (Rcase_abs (-2)); lra).
    cbn [max_val max_element_from]. rewrite !exact_abs_less.
    rewrite (Rabs_right 1), Habs by lra.
    replace (Rltb 1 2) with true by (symmetry; apply Rltb_true; lra).
    rewrite Habs, (Rabs_right (1 / 2)) by lra.
    replace (Rltb 2 (1 / 2)) with false
      by (symmetry; apply Rltb_false; lra).
    reflexivity.
  - lra.
Defined.

End PitchFollowerTestFacts.
